(** * Expense Tracker API: a shallow embedding of [main.py]

    The FastAPI handlers of [main.py] are embedded as programs of a small
    state-and-exception monad over a SQLAlchemy-like session.  Tables are
    lists of rows in rowid order, [db.get] is a primary-key lookup, and a
    request runs against a session whose uncommitted changes are discarded
    when the handler raises. *)

From Stdlib Require Import ZArith List String Ascii Bool QArith Lia.
From Stdlib Require Import Sorting.Sorted Sorting.Permutation.
From Stdlib Require Import DecimalString.
Import ListNotations.

Local Open Scope string_scope.
Local Open Scope Z_scope.

(** ** Values *)

(** [dt.date]: compared lexicographically on (year, month, day). *)
Module Date.
Record t := mk { year : Z; month : Z; day : Z }.

Definition leb (a b : t) : bool :=
  (year a <? year b)
  || ((year a =? year b)
      && ((month a <? month b)
          || ((month a =? month b) && (day a <=? day b)))).

Definition eqb (a b : t) : bool :=
  (year a =? year b) && (month a =? month b) && (day a =? day b).
End Date.

(** A Python [float]: a finite value (a rational here; the handlers only
    compare amounts with zero and copy them) or one of the special values
    that [json.loads] lets through. *)
Inductive float := Finite (q : Q) | PosInf | NegInf | NaN.

(** [x > 0], the test behind [Field(gt=0)]. *)
Definition float_gt0 (x : float) : bool :=
  match x with
  | Finite q => negb (Qle_bool q 0)
  | PosInf => true
  | NegInf | NaN => false
  end.


(** Neither NaN nor an infinity. *)
Definition float_finite (x : float) : bool :=
  match x with
  | Finite _ => true
  | PosInf | NegInf | NaN => false
  end.

(** A Python [str] is kept as the bytes of its UTF-8 encoding.  A byte
    [10xxxxxx] continues a character, every other byte starts one. *)
Definition utf8_continuation (c : ascii) : bool :=
  let n := nat_of_ascii c in
  (Nat.leb 128 n && Nat.leb n 191)%bool.

(** [len(s)]: the number of characters of the text. *)
Fixpoint py_len (s : string) : nat :=
  match s with
  | EmptyString => 0%nat
  | String c rest =>
      ((if utf8_continuation c then 0 else 1) + py_len rest)%nat
  end.

(** ** DB models *)

Module User.
Record t := mk
  { id : Z; email : string; password_hash : string; created_at : Z }.
End User.

Module Category.
Record t := mk { id : Z; name : string; owner_id : Z }.
End Category.

Module Transaction.
Record t := mk
  { id : Z;
    date : Date.t;
    description : string;
    amount : float;
    type : string;
    category_id : option Z;
    owner_id : Z }.
End Transaction.

(** ** Request and response models *)

Module UserCreate.
Record t := mk { email : string; password : string }.
End UserCreate.

Module CategoryIn.
Record t := mk { name : string }.

(** [Field(min_length=1, max_length=100)]: the bounds are on the number
    of characters. *)
Definition valid (p : t) : bool :=
  let n := Z.of_nat (py_len (name p)) in
  (1 <=? n) && (n <=? 100).
End CategoryIn.

Module TxIn.
Record t := mk
  { date : Date.t;
    description : string;
    amount : float;
    type : string;
    category_id : option Z }.

(** [Field(pattern="^(expense|income)$")]: the anchored alternation
    accepts the two words and nothing else. *)
Definition type_ok (s : string) : bool :=
  String.eqb s "expense" || String.eqb s "income".

(** The constraints declared on the fields: [amount] has [gt=0],
    [type] has the pattern. *)
Definition valid (p : t) : bool :=
  float_gt0 (amount p) && type_ok (type p).
End TxIn.

Module TxOut.
Record t := mk
  { id : Z;
    date : Date.t;
    description : string;
    amount : float;
    type : string;
    category_id : option Z;
    category_name : option string }.
End TxOut.

(** ** Errors *)

(** What a request can fail with: an [HTTPException] raised by a handler or
    a dependency, the 422 that FastAPI answers when the body does not
    validate, and the exceptions that nothing catches, which end the request
    with a 500: SQLAlchemy's error when [refresh] finds no row, the
    [OverflowError] of sqlite3 for an integer it cannot bind, and the
    [ValueError] of the JSON encoder for a float that is not finite. *)
Inductive error :=
| HTTPException (status_code : Z) (detail : string)
| RequestValidationError
| InvalidRequestError
| OverflowError
| ValueError.

Definition status_of (e : error) : Z :=
  match e with
  | HTTPException s _ => s
  | RequestValidationError => 422
  | InvalidRequestError => 500
  | OverflowError => 500
  | ValueError => 500
  end.

(** ** The store and the session *)

Record Db := mkDb
  { users : list User.t;
    categories : list Category.t;
    transactions : list Transaction.t }.

(** A [Session]: the durable store and the session's own view of it, which
    [commit] makes durable. *)
Record Session := mkSession { durable : Db; pending : Db }.

Definition M (A : Type) : Type := Session -> (error + A) * Session.

Definition ret {A} (a : A) : M A := fun s => (inr a, s).

Definition raise {A} (e : error) : M A := fun s => (inl e, s).

Definition bind {A B} (m : M A) (k : A -> M B) : M B :=
  fun s =>
    match m s with
    | (inl e, s') => (inl e, s')
    | (inr a, s') => k a s'
    end.

Declare Scope session_scope.
Delimit Scope session_scope with session.
Notation "x <- c ;; k" := (bind c (fun x => k))
  (at level 100, c at next level, right associativity) : session_scope.
Notation "c ;;; k" := (bind c (fun _ => k))
  (at level 100, right associativity) : session_scope.
Local Open Scope session_scope.

(** [for x in xs: body(x)] *)
Fixpoint for_each {A} (xs : list A) (body : A -> M unit) : M unit :=
  match xs with
  | [] => ret tt
  | x :: rest => body x ;;; for_each rest body
  end.

(** [[f(x) for x in xs]] where [f] reads the session. *)
Fixpoint map_m {A B} (f : A -> M B) (xs : list A) : M (list B) :=
  match xs with
  | [] => ret []
  | x :: rest => y <- f x ;; ys <- map_m f rest ;; ret (y :: ys)
  end.

(** [get_db]: a fresh session on the store for one request; what was not
    committed when the request ends is dropped. *)
Definition run {A} (m : M A) (d : Db) : (error + A) * Db :=
  let (r, s) := m (mkSession d d) in (r, durable s).

(** The rowid SQLite gives a new row of an [INTEGER PRIMARY KEY] table: one
    more than the largest in use, 1 in an empty table. *)
Definition next_rowid (ids : list Z) : Z :=
  match ids with
  | [] => 1
  | i :: rest => fold_right Z.max i rest + 1
  end.

Definition with_pending (f : Db -> Db) : M unit :=
  fun s => (inr tt, mkSession (durable s) (f (pending s))).

Definition read {A} (f : Db -> A) : M A :=
  fun s => (inr (f (pending s)), s).

(** [db.commit()] *)
Definition db_commit : M unit :=
  fun s => (inr tt, mkSession (pending s) (pending s)).

(** The row of a table that has the primary key, if any: what
    [db.get(User, uid)] and its siblings find once the key is bound, see
    [db_get]. *)
Definition get_user (d : Db) (uid : Z) : option User.t :=
  find (fun u => User.id u =? uid) (users d).

Definition get_category (d : Db) (cid : Z) : option Category.t :=
  find (fun c => Category.id c =? cid) (categories d).

Definition get_transaction (d : Db) (tid : Z) : option Transaction.t :=
  find (fun t => Transaction.id t =? tid) (transactions d).

(** The integers that SQLite holds and that sqlite3 binds as a parameter:
    the signed 64-bit range. *)
Definition in_int64 (z : Z) : bool :=
  (- 2 ^ 63 <=? z) && (z <=? 2 ^ 63 - 1).

(** [db.get(Model, key)] in a session: the key is bound as a parameter of
    the SELECT, and for a key outside the 64-bit range the bind raises
    [OverflowError], which no handler catches.  A row that the store holds
    has its key within the range, so a key outside it is the key of no
    row. *)
Definition db_get {A} (lookup : Db -> Z -> option A) (key : Z)
  : M (option A) :=
  fun s =>
    match lookup (pending s) key with
    | Some row => (inr (Some row), s)
    | None =>
        if in_int64 key then (inr None, s) else (inl OverflowError, s)
    end.

Definition db_get_user (uid : Z) : M (option User.t) :=
  db_get get_user uid.

Definition db_get_category (cid : Z) : M (option Category.t) :=
  db_get get_category cid.

Definition db_get_transaction (tid : Z) : M (option Transaction.t) :=
  db_get get_transaction tid.

(** [db.scalar(select(User).where(User.email == email))] *)
Definition db_user_by_email (e : string) : M (option User.t) :=
  read (fun d => find (fun u => String.eqb (User.email u) e) (users d)).

(** [db.add(User(...))]: the row gets its id when it is inserted; the id is
    returned. *)
Definition db_add_user (e h : string) (now : Z) : M Z :=
  fun s =>
    let d := pending s in
    let i := next_rowid (map User.id (users d)) in
    (inr i,
     mkSession (durable s)
       (mkDb (users d ++ [User.mk i e h now]) (categories d) (transactions d))).

(** [db.add(Category(name=..., owner_id=...))] *)
Definition db_add_category (n : string) (owner : Z) : M Z :=
  fun s =>
    let d := pending s in
    let i := next_rowid (map Category.id (categories d)) in
    (inr i,
     mkSession (durable s)
       (mkDb (users d) (categories d ++ [Category.mk i n owner])
          (transactions d))).

(** [db.add(Transaction(...))].  The insert does not look at [category_id]:
    the engine is created on SQLite without turning foreign keys on, so the
    store accepts a reference to no row. *)
Definition db_add_transaction (p : TxIn.t) (owner : Z) : M Z :=
  fun s =>
    let d := pending s in
    let i := next_rowid (map Transaction.id (transactions d)) in
    (inr i,
     mkSession (durable s)
       (mkDb (users d) (categories d)
          (transactions d
           ++ [Transaction.mk i (TxIn.date p) (TxIn.description p)
                 (TxIn.amount p) (TxIn.type p) (TxIn.category_id p) owner]))).

(** [db.refresh(obj)]: re-read the row by primary key. *)
Definition db_refresh_user (uid : Z) : M User.t :=
  o <- db_get_user uid ;;
  match o with Some u => ret u | None => raise InvalidRequestError end.

Definition db_refresh_category (cid : Z) : M Category.t :=
  o <- db_get_category cid ;;
  match o with Some c => ret c | None => raise InvalidRequestError end.

Definition db_refresh_transaction (tid : Z) : M Transaction.t :=
  o <- db_get_transaction tid ;;
  match o with Some t => ret t | None => raise InvalidRequestError end.

(** Writing the changed attributes of a row back: the row with that primary
    key is replaced. *)
Definition db_update_category (c : Category.t) : M unit :=
  with_pending (fun d =>
    mkDb (users d)
      (map (fun r => if Category.id r =? Category.id c then c else r)
         (categories d))
      (transactions d)).

Definition db_update_transaction (t : Transaction.t) : M unit :=
  with_pending (fun d =>
    mkDb (users d) (categories d)
      (map (fun r => if Transaction.id r =? Transaction.id t then t else r)
         (transactions d))).

(** The category reference of [t] set to NULL when it is [cid]. *)
Definition detach (cid : Z) (t : Transaction.t) : Transaction.t :=
  match Transaction.category_id t with
  | Some c =>
      if c =? cid
      then Transaction.mk (Transaction.id t) (Transaction.date t)
             (Transaction.description t) (Transaction.amount t)
             (Transaction.type t) None (Transaction.owner_id t)
      else t
  | None => t
  end.

(** [db.delete(c)] for a Category: [Category.transactions] has no delete
    cascade, so the rows that reference [c] get a NULL [category_id] (the
    foreign key says [ondelete="SET NULL"] as well), then the row goes. *)
Definition db_delete_category (c : Category.t) : M unit :=
  with_pending (fun d =>
    mkDb (users d)
      (filter (fun r => negb (Category.id r =? Category.id c)) (categories d))
      (map (detach (Category.id c)) (transactions d))).

(** ** Auth utils *)

(** A decoded JSON value as Python sees it. *)
Inductive pyval :=
| PyNone
| PyBool (b : bool)
| PyInt (z : Z)
| PyFloat (x : float)
| PyStr (s : string)
| PyList
| PyDict.

(** The exceptions [jwt.decode] raises on a bad token. *)
Inductive jwt_error := DecodeError | InvalidSignatureError | ExpiredSignatureError.

(** [payload.get(key)] *)
Fixpoint dict_get (payload : list (string * pyval)) (key : string) : pyval :=
  match payload with
  | [] => PyNone
  | (k, v) :: rest => if String.eqb k key then v else dict_get rest key
  end.

Section Auth.
(** [jwt.decode(token, SECRET_KEY, algorithms=["HS256"])] at the time of
    the request, and [int(s)] on a string: both belong to libraries. *)
Variable jwt_decode : string -> jwt_error + list (string * pyval).
Variable int_of_str : string -> option Z.

(** [int(v)]; [None] when it raises. *)
Definition py_int (v : pyval) : option Z :=
  match v with
  | PyNone | PyList | PyDict => None
  | PyBool b => Some (if b then 1 else 0)
  | PyInt z => Some z
  | PyFloat (Finite q) => Some (Z.quot (Qnum q) (Zpos (Qden q)))
  | PyFloat _ => None
  | PyStr s => int_of_str s
  end.

Definition get_user_from_token (token : string) : M User.t :=
  match jwt_decode token with
  | inl _ => raise (HTTPException 401 "Invalid token")
  | inr payload =>
      match py_int (dict_get payload "sub") with
      | None => raise (HTTPException 401 "Invalid token")
      | Some uid =>
          user <- db_get_user uid ;;
          match user with
          | None => raise (HTTPException 401 "User not found")
          | Some u => ret u
          end
      end
  end.
End Auth.

(** ** Auth routes *)

Section Register.
(** [hash_password] (bcrypt) and the clock behind [created_at]. *)
Variable hash_password : string -> string.
Variable utcnow : Z.

Definition register (user : UserCreate.t) : M User.t :=
  exists_ <- db_user_by_email (UserCreate.email user) ;;
  match exists_ with
  | Some _ => raise (HTTPException 400 "Email already registered")
  | None =>
      uid <- db_add_user (UserCreate.email user)
               (hash_password (UserCreate.password user)) utcnow ;;
      db_commit ;;;
      u <- db_refresh_user uid ;;
      for_each ["General"; "Food"; "Transport"]
        (fun name => _ <- db_add_category name (User.id u) ;; ret tt) ;;;
      db_commit ;;;
      ret u
  end.
End Register.

(** ** Category routes *)

Definition create_category (payload : CategoryIn.t) (current_user : User.t)
  : M Category.t :=
  cid <- db_add_category (CategoryIn.name payload) (User.id current_user) ;;
  db_commit ;;;
  db_refresh_category cid.

Definition update_category (category_id : Z) (payload : CategoryIn.t)
    (current_user : User.t) : M Category.t :=
  c <- db_get_category category_id ;;
  match c with
  | None => raise (HTTPException 404 "Category not found")
  | Some c =>
      if negb (Category.owner_id c =? User.id current_user)
      then raise (HTTPException 404 "Category not found")
      else
        db_update_category
          (Category.mk (Category.id c) (CategoryIn.name payload)
             (Category.owner_id c)) ;;;
        db_commit ;;;
        db_refresh_category (Category.id c)
  end.

Definition delete_category (category_id : Z) (current_user : User.t)
  : M unit :=
  c <- db_get_category category_id ;;
  match c with
  | None => raise (HTTPException 404 "Category not found")
  | Some c =>
      if negb (Category.owner_id c =? User.id current_user)
      then raise (HTTPException 404 "Category not found")
      else
        db_delete_category c ;;;
        db_commit ;;;
        ret tt
  end.

(** ** Transaction routes *)

(** ASCII lower case, as SQLite's [lower()]. *)
Definition lower_ascii (c : ascii) : ascii :=
  let n := nat_of_ascii c in
  if (Nat.leb 65 n && Nat.leb n 90)%bool then ascii_of_nat (n + 32) else c.

Fixpoint lower (s : string) : string :=
  match s with
  | EmptyString => EmptyString
  | String c rest => String (lower_ascii c) (lower rest)
  end.

(** The text that SQLite's [LIKE] is given is read as a C string: it ends
    at the first NUL. *)
Fixpoint c_str (s : string) : string :=
  match s with
  | EmptyString => EmptyString
  | String c rest =>
      if Ascii.eqb c "000"%char then EmptyString else String c (c_str rest)
  end.

(** The first byte of a character of several bytes. *)
Definition utf8_lead (c : ascii) : bool := Nat.leb 192 (nat_of_ascii c).

Fixpoint skip_continuation (s : string) : string :=
  match s with
  | EmptyString => EmptyString
  | String c rest =>
      if utf8_continuation c then skip_continuation rest else s
  end.

(** What follows the character that begins with the byte [c]. *)
Definition after_char (c : ascii) (rest : string) : string :=
  if utf8_lead c then skip_continuation rest else rest.

(** [m] accepts [s] or what is left of [s] after some of its characters;
    [mid] says that [s] begins within a character. *)
Fixpoint some_tail (m : string -> bool) (mid : bool) (s : string) : bool :=
  match s with
  | EmptyString => m EmptyString
  | String c s' =>
      if mid && utf8_continuation c then some_tail m true s'
      else m s || some_tail m (utf8_lead c) s'
  end.

(** SQL [LIKE] on C strings: [%] stands for any run of characters, [_] for
    one character, of one byte or of several. *)
Fixpoint like_chars (pat : string) : string -> bool :=
  match pat with
  | EmptyString =>
      fun s => match s with EmptyString => true | String _ _ => false end
  | String p pat' =>
      if Ascii.eqb p "%"%char then some_tail (like_chars pat') false
      else if Ascii.eqb p "_"%char then
        fun s =>
          match s with
          | EmptyString => false
          | String c s' => like_chars pat' (after_char c s')
          end
      else
        fun s =>
          match s with
          | EmptyString => false
          | String c s' => Ascii.eqb p c && like_chars pat' s'
          end
  end.

Definition like (pat s : string) : bool := like_chars (c_str pat) (c_str s).

(** [column.ilike(pat)], which SQLAlchemy renders for SQLite as
    [lower(column) LIKE lower(pat)].  SQLite refuses a pattern of more than
    50000 bytes; patterns are taken within that bound here, see
    [servable]. *)
Definition ilike (s pat : string) : bool := like (lower pat) (lower s).

(** [ORDER BY date DESC]: SQL leaves the order among rows of equal date
    open; SQLite's sorter returns them in descending rowid order, so a row
    goes behind the later rows of its date. *)
Fixpoint insert_desc (x : Transaction.t) (l : list Transaction.t)
  : list Transaction.t :=
  match l with
  | [] => [x]
  | y :: ys =>
      if Date.leb (Transaction.date x) (Transaction.date y)
      then y :: insert_desc x ys
      else x :: y :: ys
  end.

Definition order_by_date_desc (l : list Transaction.t) : list Transaction.t :=
  fold_right insert_desc [] l.

(** [LIMIT limit OFFSET offset] as SQLite reads them: a negative limit is
    no limit, a negative offset is none. *)
Definition limit_offset {A} (limit offset : Z) (l : list A) : list A :=
  let l' := skipn (Z.to_nat offset) l in
  if limit <? 0 then l' else firstn (Z.to_nat limit) l'.

(** [db.scalars(stmt).all()] for a statement over [Transaction], its
    parameters taken within what SQLite accepts, see [servable]. *)
Definition db_scalars_transactions (where_ : Transaction.t -> bool)
    (limit offset : Z) : M (list Transaction.t) :=
  read (fun d =>
    limit_offset limit offset
      (order_by_date_desc (filter where_ (transactions d)))).

(** [t.category]: the row that [t.category_id] refers to, if any. *)
Definition tx_category (d : Db) (t : Transaction.t) : option Category.t :=
  match Transaction.category_id t with
  | Some cid => get_category d cid
  | None => None
  end.

(** The [TxOut(...)] built from a row, the same expression in the three
    handlers. *)
Definition tx_out (d : Db) (t : Transaction.t) : TxOut.t :=
  TxOut.mk (Transaction.id t) (Transaction.date t) (Transaction.description t)
    (Transaction.amount t) (Transaction.type t) (Transaction.category_id t)
    (match tx_category d t with
     | Some c => Some (Category.name c)
     | None => None
     end).

Definition to_TxOut (t : Transaction.t) : M TxOut.t :=
  read (fun d => tx_out d t).

(** [stmt.where(cond)] *)
Definition where_ (stmt cond : Transaction.t -> bool) : Transaction.t -> bool :=
  fun t => stmt t && cond t.

(** The statement that [list_transactions] builds: the owner's rows, then
    one [where] for each filter that is given and truthy.  A [dt.date] is
    always truthy. *)
Definition list_stmt (current_user : User.t)
    (q : option string) (type : option string) (category_id : option Z)
    (start end_ : option Date.t) : Transaction.t -> bool :=
  let stmt := fun t => Transaction.owner_id t =? User.id current_user in
  let stmt :=
    match q with
    | Some (String c rest) =>
        where_ stmt (fun t =>
          ilike (Transaction.description t) ("%" ++ String c rest ++ "%"))
    | _ => stmt
    end in
  let stmt :=
    match type with
    | Some ty =>
        if String.eqb ty "expense" || String.eqb ty "income"
        then where_ stmt (fun t => String.eqb (Transaction.type t) ty)
        else stmt
    | None => stmt
    end in
  let stmt :=
    match category_id with
    | Some cid =>
        if cid =? 0 then stmt
        else where_ stmt (fun t =>
               match Transaction.category_id t with
               | Some c => c =? cid
               | None => false
               end)
    | None => stmt
    end in
  let stmt :=
    match start with
    | Some s => where_ stmt (fun t => Date.leb s (Transaction.date t))
    | None => stmt
    end in
  let stmt :=
    match end_ with
    | Some e => where_ stmt (fun t => Date.leb (Transaction.date t) e)
    | None => stmt
    end in
  stmt.

Definition list_transactions (current_user : User.t)
    (q : option string) (type : option string) (category_id : option Z)
    (start end_ : option Date.t) (limit offset : Z) : M (list TxOut.t) :=
  txs <- db_scalars_transactions
           (list_stmt current_user q type category_id start end_)
           limit offset ;;
  map_m to_TxOut txs.

(** The listing requests whose parameters SQLite accepts: the integers that
    are bound (the limit, the offset and a category id) lie in the signed
    64-bit range, and the pattern [%q%] has at most 50000 bytes.  Beyond
    these bounds the statement fails in the database and the request is
    answered 500, which [list_transactions] above leaves out. *)
Definition servable (q : option string) (category_id : option Z)
    (limit offset : Z) : bool :=
  in_int64 limit && in_int64 offset
  && match category_id with
     | Some cid => in_int64 cid
     | None => true
     end
  && match q with
     | Some s => Z.of_nat (String.length s) + 2 <=? 50000
     | None => true
     end.

(** The category check of [create_transaction] and [update_transaction]
    (the same four lines in both): [if payload.category_id:] skips it for
    [None] and for [0]. *)
Definition check_category (category_id : option Z) (current_user : User.t)
  : M unit :=
  match category_id with
  | None => ret tt
  | Some cid =>
      if cid =? 0 then ret tt
      else
        cat <- db_get_category cid ;;
        match cat with
        | None => raise (HTTPException 404 "Category not found")
        | Some c =>
            if negb (Category.owner_id c =? User.id current_user)
            then raise (HTTPException 404 "Category not found")
            else ret tt
        end
  end.

Definition create_transaction (payload : TxIn.t) (current_user : User.t)
  : M TxOut.t :=
  check_category (TxIn.category_id payload) current_user ;;;
  tid <- db_add_transaction payload (User.id current_user) ;;
  db_commit ;;;
  tx <- db_refresh_transaction tid ;;
  to_TxOut tx.

Definition update_transaction (tx_id : Z) (payload : TxIn.t)
    (current_user : User.t) : M TxOut.t :=
  tx <- db_get_transaction tx_id ;;
  match tx with
  | None => raise (HTTPException 404 "Transaction not found")
  | Some tx =>
      if negb (Transaction.owner_id tx =? User.id current_user)
      then raise (HTTPException 404 "Transaction not found")
      else
        check_category (TxIn.category_id payload) current_user ;;;
        db_update_transaction
          (Transaction.mk (Transaction.id tx) (TxIn.date payload)
             (TxIn.description payload) (TxIn.amount payload)
             (TxIn.type payload) (TxIn.category_id payload)
             (Transaction.owner_id tx)) ;;;
        db_commit ;;;
        tx' <- db_refresh_transaction (Transaction.id tx) ;;
        to_TxOut tx'
  end.

(** A route with a [TxIn] body: FastAPI validates the body against the
    model before the handler runs and answers 422 when it fails.  The 422
    echoes the input of every field that failed, and the JSON encoder
    refuses a float that is not finite: when the amount that failed is NaN
    or -Infinity, writing the 422 raises [ValueError] and the request ends
    with a 500. *)
Definition with_TxIn {A} (payload : TxIn.t) (handler : TxIn.t -> M A) : M A :=
  if TxIn.valid payload then handler payload
  else if negb (float_gt0 (TxIn.amount payload))
          && negb (float_finite (TxIn.amount payload))
       then raise ValueError
       else raise RequestValidationError.

Definition post_transactions (payload : TxIn.t) (current_user : User.t)
  : M TxOut.t :=
  with_TxIn payload (fun p => create_transaction p current_user).

Definition put_transactions (tx_id : Z) (payload : TxIn.t)
    (current_user : User.t) : M TxOut.t :=
  with_TxIn payload (fun p => update_transaction tx_id p current_user).

(** ** Rows and stores the properties speak about *)

(** The three rows that [register] adds for the user [uid] when [i] is the
    next rowid of the Category table. *)
Definition default_categories (i uid : Z) : list Category.t :=
  [Category.mk i "General" uid;
   Category.mk (i + 1) "Food" uid;
   Category.mk (i + 2) "Transport" uid].

(** The row that [create_transaction] inserts into [d] for [payload]. *)
Definition new_transaction (d : Db) (payload : TxIn.t) (owner : Z)
  : Transaction.t :=
  Transaction.mk (next_rowid (map Transaction.id (transactions d)))
    (TxIn.date payload) (TxIn.description payload) (TxIn.amount payload)
    (TxIn.type payload) (TxIn.category_id payload) owner.

(** The row [tx] with every field but its id and owner taken from
    [payload]. *)
Definition overwritten (tx : Transaction.t) (payload : TxIn.t)
  : Transaction.t :=
  Transaction.mk (Transaction.id tx)
    (TxIn.date payload) (TxIn.description payload) (TxIn.amount payload)
    (TxIn.type payload) (TxIn.category_id payload) (Transaction.owner_id tx).

Definition with_transactions (d : Db) (ts : list Transaction.t) : Db :=
  mkDb (users d) (categories d) ts.

(** [a] comes no later than [b] in a listing by date, latest first. *)
Definition date_desc (a b : Transaction.t) : Prop :=
  Date.leb (Transaction.date b) (Transaction.date a) = true.

Definition out_date_desc (a b : TxOut.t) : Prop :=
  Date.leb (TxOut.date b) (TxOut.date a) = true.

(** The conditions a listing filters on. *)
Definition owned_by (P : User.t) (t : Transaction.t) : bool :=
  Transaction.owner_id t =? User.id P.

Definition in_range (s e : Date.t) (t : Transaction.t) : bool :=
  Date.leb s (Transaction.date t) && Date.leb (Transaction.date t) e.

Definition in_category (cid : Z) (t : Transaction.t) : bool :=
  match Transaction.category_id t with
  | Some c => c =? cid
  | None => false
  end.

Definition of_kind (k : string) (t : Transaction.t) : bool :=
  String.eqb (Transaction.type t) k.

(** The page [limit], [offset] holds all of a result of [n] rows. *)
Definition covers (limit offset : Z) (n : nat) : Prop :=
  offset <= 0 /\ (limit < 0 \/ Z.of_nat n <= limit).

(** What a handler answers when [db.get] finds no row of the key: its own
    404 for a key within the 64-bit range, the [OverflowError] of the lookup
    for one outside it. *)
Definition missing (key : Z) (e : error) : error :=
  if in_int64 key then e else OverflowError.

(** The exception of a failed category check. *)
Definition not_found : error := HTTPException 404 "Category not found".

(** [payload.category_id] refers to a Category of [uid]. *)
Definition category_owned (d : Db) (cid uid : Z) : Prop :=
  exists c, get_category d cid = Some c /\ Category.owner_id c = uid.

(** ** Sample stores and requests *)

Definition alice : User.t := User.mk 1 "alice@example.com" "h1" 0.
Definition bob : User.t := User.mk 2 "bob@example.com" "h2" 0.

(** Two users; the Category 1 belongs to the second. *)
Definition store_foreign : Db :=
  mkDb [alice; bob] [Category.mk 1 "Rent" 2] [].

(** Alice has two Categories and three Transactions, two of them filed
    under Category 1. *)
Definition store_groceries : Db :=
  mkDb [alice; bob]
    [Category.mk 1 "Food" 1; Category.mk 2 "Transport" 1]
    [Transaction.mk 1 (Date.mk 2024 1 5) "Market" (Finite (12 # 1)) "expense"
       (Some 1) 1;
     Transaction.mk 2 (Date.mk 2024 1 9) "Bus" (Finite (3 # 1)) "expense"
       (Some 2) 1;
     Transaction.mk 3 (Date.mk 2024 1 20) "Bakery" (Finite (5 # 2)) "expense"
       (Some 1) 1].

(** A request body that refers to the Category 0. *)
Definition lunch_zero : TxIn.t :=
  TxIn.mk (Date.mk 2024 2 1) "Lunch" (Finite (9 # 1)) "expense" (Some 0).


(** A well-formed request body without a Category. *)
Definition groceries_bill : TxIn.t :=
  TxIn.mk (Date.mk 2024 1 31) "Groceries" (Finite (40 # 1)) "expense" None.

(** Alice with 51 Transactions, one a day from 1 January 2024 on (the
    months cut to 28 days). *)
Definition store_busy : Db :=
  mkDb [alice] []
    (map (fun i =>
            Transaction.mk (Z.of_nat i)
              (Date.mk 2024 (1 + Z.of_nat ((i - 1) / 28))
                 (1 + Z.of_nat ((i - 1) mod 28)))
              "Coffee" (Finite (2 # 1)) "expense" None 1)
       (seq 1 51)).

(** A decoder that knows two tokens, one for the user 1 and one for a user 9
    that no store here has, and rejects the rest; and [int] on the subjects
    those tokens carry. *)
Definition sample_decode (token : string)
  : jwt_error + list (string * pyval) :=
  if String.eqb token "token-of-1" then inr [("sub", PyStr "1")]
  else if String.eqb token "token-of-9" then inr [("sub", PyStr "9")]
  else inl DecodeError.

Definition sample_int (s : string) : option Z :=
  if String.eqb s "1" then Some 1
  else if String.eqb s "9" then Some 9
  else None.

(** A well-formed request body filed under Alice's Category 1. *)
Definition bakery_again : TxIn.t :=
  TxIn.mk (Date.mk 2024 1 25) "Bakery" (Finite (7 # 2)) "expense" (Some 1).


(** A decoder that knows one token, whose subject is the number 2^63. *)
Definition sample_decode_huge (token : string)
  : jwt_error + list (string * pyval) :=
  if String.eqb token "token-of-2^63"
  then inr [("sub", PyInt 9223372036854775808)]
  else inl DecodeError.

(** * The rest of the API *)

(** ** Listing Categories *)

(** [ORDER BY name]: byte order, as SQLite compares text; rows of equal
    name stay in rowid order here. *)
Fixpoint insert_by_name (c : Category.t) (l : list Category.t)
  : list Category.t :=
  match l with
  | [] => [c]
  | y :: ys =>
      if String.leb (Category.name c) (Category.name y)
      then c :: y :: ys
      else y :: insert_by_name c ys
  end.

Definition order_by_name (l : list Category.t) : list Category.t :=
  fold_right insert_by_name [] l.

Definition list_categories (current_user : User.t) : M (list Category.t) :=
  read (fun d =>
    order_by_name
      (filter (fun c => Category.owner_id c =? User.id current_user)
         (categories d))).

(** ** Routes with a [CategoryIn] body *)

Definition with_CategoryIn {A} (payload : CategoryIn.t)
    (handler : CategoryIn.t -> M A) : M A :=
  if CategoryIn.valid payload then handler payload
  else raise RequestValidationError.

Definition post_categories (payload : CategoryIn.t) (current_user : User.t)
  : M Category.t :=
  with_CategoryIn payload (fun p => create_category p current_user).

Definition put_categories (category_id : Z) (payload : CategoryIn.t)
    (current_user : User.t) : M Category.t :=
  with_CategoryIn payload (fun p => update_category category_id p current_user).

(** ** Login *)

Module Token.
Record t := mk { access_token : string; token_type : string }.
End Token.

(** [str(n)] for an [int]. *)
Definition py_str_int (z : Z) : string := NilZero.string_of_int (Z.to_int z).

(** [d.update({key: v})] *)
Fixpoint dict_update (d : list (string * pyval)) (key : string) (v : pyval)
  : list (string * pyval) :=
  match d with
  | [] => [(key, v)]
  | (k, w) :: rest =>
      if String.eqb k key then (k, v) :: rest
      else (k, w) :: dict_update rest key v
  end.

Section Login.
(** [pwd_context.verify], [jwt.encode(..., SECRET_KEY, "HS256")], the clock
    in seconds, and the configured lifetime of a token. *)
Variable verify_password : string -> string -> bool.
Variable jwt_encode : list (string * pyval) -> string.
Variable utcnow : Z.
Variable ACCESS_TOKEN_EXPIRE_MINUTES : Z.

(** The expiry is written as the time stamp that the token carries. *)
Definition create_access_token (data : list (string * pyval))
    (expires_minutes : Z) : string :=
  let to_encode := data in
  let expire := utcnow + 60 * expires_minutes in
  jwt_encode (dict_update to_encode "exp" (PyInt expire)).

Definition login (username password : string) : M Token.t :=
  u <- db_user_by_email username ;;
  match u with
  | None => raise (HTTPException 400 "Incorrect email or password")
  | Some u =>
      if negb (verify_password password (User.password_hash u))
      then raise (HTTPException 400 "Incorrect email or password")
      else
        ret (Token.mk
               (create_access_token
                  [("sub", PyStr (py_str_int (User.id u)))]
                  ACCESS_TOKEN_EXPIRE_MINUTES)
               "bearer")
  end.
End Login.

(** ** Requests *)

Section Api.
Variable jwt_decode : string -> jwt_error + list (string * pyval).
Variable int_of_str : string -> option Z.
Variable hash_password : string -> string.
Variable utcnow : Z.

(** A route that takes [current_user: UserDep]: the dependency runs first,
    and its exception is the answer. *)
Definition authenticated {A} (token : string) (handler : User.t -> M A)
  : M A :=
  current_user <- get_user_from_token jwt_decode int_of_str token ;;
  handler current_user.

(** The requests that reach the store. *)
Inductive request :=
| Register (user : UserCreate.t)
| GetCategories (token : string)
| PostCategory (token : string) (payload : CategoryIn.t)
| PutCategory (token : string) (category_id : Z) (payload : CategoryIn.t)
| DeleteCategory (token : string) (category_id : Z)
| GetTransactions (token : string) (q type : option string)
    (category_id : option Z) (start end_ : option Date.t) (limit offset : Z)
| PostTransaction (token : string) (payload : TxIn.t)
| PutTransaction (token : string) (tx_id : Z) (payload : TxIn.t).

(** The store after a request. *)
Definition serve (r : request) (d : Db) : Db :=
  match r with
  | Register user => snd (run (register hash_password utcnow user) d)
  | GetCategories token => snd (run (authenticated token list_categories) d)
  | PostCategory token payload =>
      snd (run (authenticated token (post_categories payload)) d)
  | PutCategory token cid payload =>
      snd (run (authenticated token (put_categories cid payload)) d)
  | DeleteCategory token cid =>
      snd (run (authenticated token (delete_category cid)) d)
  | GetTransactions token q ty cat st en limit offset =>
      snd (run (authenticated token (fun P =>
                  list_transactions P q ty cat st en limit offset)) d)
  | PostTransaction token payload =>
      snd (run (authenticated token (post_transactions payload)) d)
  | PutTransaction token tx_id payload =>
      snd (run (authenticated token (put_transactions tx_id payload)) d)
  end.

(** The store after a sequence of requests, served one after the other. *)
Definition serve_all (rs : list request) (d : Db) : Db :=
  fold_left (fun d r => serve r d) rs d.
End Api.

(** The store of a fresh deployment. *)
Definition empty_db : Db := mkDb [] [] [].

(** ** Conditions on a store *)

(** Primary keys are positive and no two rows of a table share one; no two
    users share an email. *)
Definition keys_ok (d : Db) : Prop :=
  NoDup (map User.id (users d))
  /\ NoDup (map Category.id (categories d))
  /\ NoDup (map Transaction.id (transactions d))
  /\ (forall i, In i (map User.id (users d)) -> 0 < i)
  /\ (forall i, In i (map Category.id (categories d)) -> 0 < i)
  /\ (forall i, In i (map Transaction.id (transactions d)) -> 0 < i)
  /\ NoDup (map User.email (users d)).

(** Every Category and every Transaction belongs to a User of the store. *)
Definition owners_ok (d : Db) : Prop :=
  (forall c, In c (categories d) ->
             In (Category.owner_id c) (map User.id (users d)))
  /\ (forall t, In t (transactions d) ->
                In (Transaction.owner_id t) (map User.id (users d))).

(** The category reference of a Transaction is NULL, 0, or the id of a
    Category of the Transaction's owner. *)
Definition refs_ok (d : Db) : Prop :=
  forall t, In t (transactions d) ->
    match Transaction.category_id t with
    | None => True
    | Some c => c = 0 \/ category_owned d c (Transaction.owner_id t)
    end.

(** What the request models let into the tables: names of 1 to 100
    characters, amounts above zero, one of the two kinds. *)
Definition fields_ok (d : Db) : Prop :=
  (forall c, In c (categories d) ->
             CategoryIn.valid (CategoryIn.mk (Category.name c)) = true)
  /\ (forall t, In t (transactions d) ->
                float_gt0 (Transaction.amount t) = true
                /\ TxIn.type_ok (Transaction.type t) = true).

(** The rows of the principals other than [uid]. *)
Definition rows_of_others (uid : Z) (d : Db)
  : list Category.t * list Transaction.t :=
  (filter (fun c => negb (Category.owner_id c =? uid)) (categories d),
   filter (fun t => negb (Transaction.owner_id t =? uid)) (transactions d)).

(** One change of the store by the principal [uid]. *)
Inductive change (uid : Z) (d : Db) : Db -> Prop :=
| change_nothing : change uid d d
| change_post_category (name : string) :
    CategoryIn.valid (CategoryIn.mk name) = true ->
    change uid d
      (mkDb (users d)
         (categories d
          ++ [Category.mk (next_rowid (map Category.id (categories d)))
                name uid])
         (transactions d))
| change_put_category (c : Category.t) (name : string) :
    get_category d (Category.id c) = Some c ->
    Category.owner_id c = uid ->
    CategoryIn.valid (CategoryIn.mk name) = true ->
    change uid d
      (mkDb (users d)
         (map (fun r =>
                 if Category.id r =? Category.id c
                 then Category.mk (Category.id c) name uid else r)
            (categories d))
         (transactions d))
| change_delete_category (c : Category.t) :
    get_category d (Category.id c) = Some c ->
    Category.owner_id c = uid ->
    change uid d
      (mkDb (users d)
         (filter (fun r => negb (Category.id r =? Category.id c))
            (categories d))
         (map (detach (Category.id c)) (transactions d)))
| change_post_transaction (payload : TxIn.t) :
    TxIn.valid payload = true ->
    match TxIn.category_id payload with
    | None => True
    | Some cid => cid = 0 \/ category_owned d cid uid
    end ->
    change uid d
      (with_transactions d
         (transactions d ++ [new_transaction d payload uid]))
| change_put_transaction (tx : Transaction.t) (payload : TxIn.t) :
    get_transaction d (Transaction.id tx) = Some tx ->
    Transaction.owner_id tx = uid ->
    TxIn.valid payload = true ->
    match TxIn.category_id payload with
    | None => True
    | Some cid => cid = 0 \/ category_owned d cid uid
    end ->
    change uid d
      (with_transactions d
         (map (fun r =>
                 if Transaction.id r =? Transaction.id tx
                 then overwritten tx payload else r)
            (transactions d))).

(** The store after a registration that went through. *)
Definition registered (d : Db) (email hash : string) (now : Z) : Db :=
  let uid := next_rowid (map User.id (users d)) in
  mkDb (users d ++ [User.mk uid email hash now])
    (categories d
     ++ default_categories (next_rowid (map Category.id (categories d))) uid)
    (transactions d).

(** The four conditions together. *)
Definition store_ok (d : Db) : Prop :=
  keys_ok d /\ owners_ok d /\ refs_ok d /\ fields_ok d.

(** Ascending order of name. *)
Definition name_asc (a b : Category.t) : Prop :=
  String.leb (Category.name a) (Category.name b) = true.

(** Neither a [LIKE] wildcard nor a NUL occurs in the string. *)
Fixpoint plain (s : string) : bool :=
  match s with
  | EmptyString => true
  | String c rest =>
      negb (Ascii.eqb c "%"%char) && negb (Ascii.eqb c "_"%char)
      && negb (Ascii.eqb c "000"%char) && plain rest
  end.

(** [q] occurs in [s]. *)
Definition contains (q s : string) : Prop :=
  exists a b, s = String.append a (String.append q b).

(** The euro sign, one character of three bytes, and a name of 34 of them:
    34 characters in 102 bytes. *)
Definition euro : string := String "226" (String "130" (String "172" "")).

Definition euro_name : string := String.concat "" (repeat euro 34).

(** A text with a NUL in it: [a], NUL, [b]. *)
Definition with_nul (a b : string) : string :=
  String.append a (String "000" b).

(** Alice and Bob with a Category and a Transaction each. *)
Definition store_shared : Db :=
  mkDb [alice; bob]
    [Category.mk 1 "Rent" 2; Category.mk 2 "Food" 1]
    [Transaction.mk 1 (Date.mk 2024 3 1) "March rent" (Finite (700 # 1))
       "expense" (Some 1) 2;
     Transaction.mk 2 (Date.mk 2024 3 2) "Market" (Finite (30 # 1))
       "expense" (Some 2) 1].

(** A password check that compares with the stored text, an encoder that
    names the subject in the token, and a decoder that gives back the claims
    of the token of user 1 issued at time 0 for 120 minutes. *)
Definition sample_verify (pw pw_hash : string) : bool := String.eqb pw pw_hash.

Definition sample_encode (claims : list (string * pyval)) : string :=
  match dict_get claims "sub" with
  | PyStr s => String.append "token-of-" s
  | _ => "token"
  end.

Definition sample_decode_claims (token : string)
  : jwt_error + list (string * pyval) :=
  if String.eqb token "token-of-1"
  then inr [("sub", PyStr "1"); ("exp", PyInt 7200)]
  else inl DecodeError.

(** * Properties *)

(** Unfolds the session operations of a handler applied to a session. *)
Ltac session_unfold :=
  unfold run, db_refresh_user, db_refresh_category, db_refresh_transaction,
    db_get_user, db_get_category, db_get_transaction, db_user_by_email,
    db_add_user, db_add_category, db_add_transaction,
    db_update_category, db_update_transaction, db_delete_category,
    db_commit, to_TxOut, with_pending, read, db_get, bind, ret, raise;
  simpl.

(** ** Primary keys *)

Lemma fold_max_ge_init (i : Z) (l : list Z) : i <= fold_right Z.max i l.
Proof. induction l as [|x l IH]; simpl; lia. Qed.

Lemma fold_max_ge_in (i x : Z) (l : list Z) :
  In x l -> x <= fold_right Z.max i l.
Proof.
  induction l as [|y l IH]; simpl; [tauto|].
  intros [->|H]; [lia|]. specialize (IH H). lia.
Qed.

(** Every id in use is below the next rowid. *)
Lemma next_rowid_above (ids : list Z) (x : Z) : In x ids -> x < next_rowid ids.
Proof.
  destruct ids as [|i rest]; simpl; [tauto|].
  intros [->|H].
  - pose proof (fold_max_ge_init x rest). lia.
  - pose proof (fold_max_ge_in i x rest H). lia.
Qed.

Lemma fold_max_snoc (i x : Z) (l : list Z) :
  fold_right Z.max i (l ++ [x]) = Z.max x (fold_right Z.max i l).
Proof. induction l as [|y l IH]; simpl; [reflexivity|]. rewrite IH. lia. Qed.

(** Inserting at the next rowid moves the next rowid up by one. *)
Lemma next_rowid_snoc (ids : list Z) :
  next_rowid (ids ++ [next_rowid ids]) = next_rowid ids + 1.
Proof.
  destruct ids as [|i rest]; simpl; [reflexivity|].
  rewrite fold_max_snoc. lia.
Qed.

Lemma find_app_fresh {A} (f : A -> bool) (l : list A) (x : A) :
  (forall y, In y l -> f y = false) -> f x = true -> find f (l ++ [x]) = Some x.
Proof.
  intros Hl Hx. induction l as [|y l IH]; simpl.
  - now rewrite Hx.
  - rewrite (Hl y (or_introl eq_refl)). apply IH.
    intros z Hz. apply Hl. now right.
Qed.

Lemma find_app_old {A} (f : A -> bool) (l : list A) (x : A) :
  f x = false -> find f (l ++ [x]) = find f l.
Proof.
  intros Hx. induction l as [|y l IH]; simpl.
  - now rewrite Hx.
  - destruct (f y); [reflexivity|exact IH].
Qed.

(** Replacing the rows of key [i] by [r'], itself of key [i], makes a lookup
    of [i] return [r'] whenever it returned a row before. *)
Lemma find_replace {A} (key : A -> Z) (i : Z) (r r' : A) (l : list A) :
  key r' = i ->
  find (fun x => key x =? i) l = Some r ->
  find (fun x => key x =? i) (map (fun x => if key x =? i then r' else x) l)
  = Some r'.
Proof.
  intros Hk. induction l as [|y l IH]; simpl; [discriminate|].
  destruct (key y =? i) eqn:E.
  - intros _. now rewrite Hk, Z.eqb_refl.
  - rewrite E. exact IH.
Qed.

(** ** Ownership checks of the Category routes *)

Lemma get_category_some (d : Db) (cid : Z) (c : Category.t) :
  get_category d cid = Some c -> In c (categories d) /\ Category.id c = cid.
Proof.
  unfold get_category. intros H. apply find_some in H.
  destruct H as [Hin Heq]. split; [exact Hin|]. now apply Z.eqb_eq.
Qed.

Lemma get_transaction_some (d : Db) (tid : Z) (t : Transaction.t) :
  get_transaction d tid = Some t ->
  In t (transactions d) /\ Transaction.id t = tid.
Proof.
  unfold get_transaction. intros H. apply find_some in H.
  destruct H as [Hin Heq]. split; [exact Hin|]. now apply Z.eqb_eq.
Qed.

(** What [db.get(Category, cid)] followed by the ownership test sees when
    the principal owns no Category of that id. *)
Lemma not_owned_lookup (d : Db) (uid cid : Z) :
  (forall c, In c (categories d) ->
             Category.id c = cid -> Category.owner_id c <> uid) ->
  match get_category d cid with
  | None => True
  | Some c => negb (Category.owner_id c =? uid) = true
  end.
Proof.
  intros H. destruct (get_category d cid) as [c|] eqn:E; [|exact I].
  apply get_category_some in E. destruct E as [Hin Hid].
  apply negb_true_iff, Z.eqb_neq. now apply H.
Qed.

(** C1. When the principal owns no Category of the given id (there is none,
    or it belongs to somebody else) and the id is within the signed 64-bit
    range, [update_category] and [delete_category] both raise the 404
    "Category not found", the same exception in the two cases, and the
    store is as before.  For an id outside that range, in a store whose
    Category ids are within it, both raise the [OverflowError] of the
    lookup instead, a 500, and the store is as before. *)
Theorem category_not_owned_is_not_found
    (d : Db) (P : User.t) (cid : Z) (payload : CategoryIn.t) :
  (forall c, In c (categories d) ->
             Category.id c = cid -> Category.owner_id c <> User.id P) ->
  (in_int64 cid = true ->
   run (update_category cid payload P) d
   = (inl (HTTPException 404 "Category not found"), d)
   /\ run (delete_category cid P) d
      = (inl (HTTPException 404 "Category not found"), d))
  /\ (in_int64 cid = false ->
      (forall c, In c (categories d) -> in_int64 (Category.id c) = true) ->
      run (update_category cid payload P) d = (inl OverflowError, d)
      /\ run (delete_category cid P) d = (inl OverflowError, d)).
Proof.
  intros H. pose proof (not_owned_lookup d (User.id P) cid H) as L.
  unfold update_category, delete_category. session_unfold. split.
  - intros R. rewrite R.
    destruct (get_category d cid) as [c|]; simpl.
    + rewrite L. simpl. split; reflexivity.
    + split; reflexivity.
  - intros R K. rewrite R.
    destruct (get_category d cid) as [c|] eqn:G; simpl.
    + apply get_category_some in G. destruct G as [Hin <-].
      rewrite (K c Hin) in R. discriminate R.
    + split; reflexivity.
Qed.

Lemma category_not_owned_is_not_found_witness :
  run (update_category 1 (CategoryIn.mk "Mine") alice) store_foreign
  = (inl (HTTPException 404 "Category not found"), store_foreign)
  /\ run (delete_category 1 alice) store_foreign
     = (inl (HTTPException 404 "Category not found"), store_foreign).
Proof.
  apply (category_not_owned_is_not_found store_foreign alice 1).
  - intros c [<-|[]] _. simpl. lia.
  - reflexivity.
Defined.

(** C1, as stated, fails for an id that SQLite cannot hold: for the id
    2^63, which no Category has, the update and the delete end in the
    [OverflowError] of the lookup, a 500 and not the 404. *)
Lemma category_id_out_of_range_is_not_a_404 :
  (forall c, In c (categories store_foreign) ->
             Category.id c = 9223372036854775808 ->
             Category.owner_id c <> User.id alice)
  /\ run (update_category 9223372036854775808 (CategoryIn.mk "Mine") alice)
       store_foreign = (inl OverflowError, store_foreign)
  /\ run (delete_category 9223372036854775808 alice) store_foreign
     = (inl OverflowError, store_foreign)
  /\ status_of OverflowError = 500.
Proof.
  split; [intros c [<-|[]] E; discriminate E|].
  split; [reflexivity|]. split; reflexivity.
Qed.

(** ** Deleting a Category *)

Lemma get_category_filter_out (cid : Z) (l : list Category.t) :
  find (fun c => Category.id c =? cid)
    (filter (fun r => negb (Category.id r =? cid)) l) = None.
Proof.
  induction l as [|c l IH]; simpl; [reflexivity|].
  destruct (Category.id c =? cid) eqn:E; simpl; [exact IH|].
  now rewrite E.
Qed.

(** C3. When the principal owns the Category [cid], deleting it succeeds;
    afterwards no Category has that id, the other Categories are as before,
    and the Transaction table has the same rows at the same positions, each
    with the fields it had, except that a category reference to [cid] has
    become NULL: no Transaction is deleted. *)
Theorem delete_category_detaches_transactions
    (d : Db) (P : User.t) (cid : Z) (c : Category.t) :
  get_category d cid = Some c ->
  Category.owner_id c = User.id P ->
  exists d',
    run (delete_category cid P) d = (inr tt, d')
    /\ get_category d' cid = None
    /\ (forall c', In c' (categories d') <->
                   In c' (categories d) /\ Category.id c' <> cid)
    /\ users d' = users d
    /\ List.length (transactions d') = List.length (transactions d)
    /\ forall n t,
         nth_error (transactions d) n = Some t ->
         exists t',
           nth_error (transactions d') n = Some t'
           /\ Transaction.id t' = Transaction.id t
           /\ Transaction.date t' = Transaction.date t
           /\ Transaction.description t' = Transaction.description t
           /\ Transaction.amount t' = Transaction.amount t
           /\ Transaction.type t' = Transaction.type t
           /\ Transaction.owner_id t' = Transaction.owner_id t
           /\ Transaction.category_id t'
              = (if match Transaction.category_id t with
                    | Some x => x =? cid
                    | None => false
                    end
                 then None
                 else Transaction.category_id t).
Proof.
  intros Hget Hown.
  destruct (get_category_some _ _ _ Hget) as [_ Hid].
  eexists. split.
  { unfold delete_category. session_unfold.
    rewrite Hget. simpl. rewrite Hown, Z.eqb_refl. simpl. rewrite Hid.
    reflexivity. }
  simpl. split; [apply get_category_filter_out|].
  split.
  { intros c'. rewrite filter_In, negb_true_iff, Z.eqb_neq. tauto. }
  split; [reflexivity|].
  split; [apply length_map|].
  intros n t Hn. exists (detach cid t). split.
  { rewrite nth_error_map, Hn. reflexivity. }
  unfold detach. destruct (Transaction.category_id t) as [x|] eqn:Ec.
  - destruct (x =? cid); simpl; rewrite ?Ec; repeat split; reflexivity.
  - rewrite Ec. repeat split; reflexivity.
Qed.

Lemma delete_category_detaches_transactions_witness :
  exists d',
    run (delete_category 1 alice) store_groceries = (inr tt, d')
    /\ get_category d' 1 = None
    /\ List.length (transactions d') = 3%nat
    /\ map Transaction.category_id (transactions d') = [None; Some 2; None].
Proof.
  destruct (delete_category_detaches_transactions store_groceries alice 1
              (Category.mk 1 "Food" 1) eq_refl eq_refl)
    as [d' [Hrun [Hget [_ [_ [Hlen _]]]]]].
  exists d'. split; [exact Hrun|]. split; [exact Hget|].
  split; [exact Hlen|].
  vm_compute in Hrun. injection Hrun as <-. reflexivity.
Defined.

(** ** Registration *)

Lemma get_user_added (us : list User.t) (cs : list Category.t)
    (ts : list Transaction.t) (e h : string) (now : Z) :
  let i := next_rowid (map User.id us) in
  get_user (mkDb (us ++ [User.mk i e h now]) cs ts) i
  = Some (User.mk i e h now).
Proof.
  intros i. unfold get_user. simpl. apply find_app_fresh.
  - intros y Hy. apply Z.eqb_neq.
    pose proof (next_rowid_above (map User.id us) (User.id y)
                  (in_map User.id us y Hy)).
    subst i. lia.
  - apply Z.eqb_refl.
Qed.

Lemma next_rowid_add_category
    (cs : list Category.t) (i : Z) (n : string) (o : Z) :
  i = next_rowid (map Category.id cs) ->
  next_rowid (map Category.id (cs ++ [Category.mk i n o])) = i + 1.
Proof. intros ->. rewrite map_app. simpl. apply next_rowid_snoc. Qed.

Lemma filter_none {A} (f : A -> bool) (l : list A) :
  (forall x, In x l -> f x = false) -> filter f l = [].
Proof.
  induction l as [|x l IH]; simpl; intros H; [reflexivity|].
  rewrite (H x (or_introl eq_refl)). apply IH. intros y Hy. apply H. now right.
Qed.

(** C4. A registration that succeeds adds the new User and exactly three
    Categories, "General", "Food" and "Transport" in this order, owned by
    the new User, after the existing rows; it adds, changes or removes no
    other Category and no Transaction.  When every existing Category
    belongs to an existing User, the Categories of the new User are those
    three. *)
Theorem register_seeds_default_categories
    (hash_password : string -> string) (utcnow : Z)
    (d : Db) (user : UserCreate.t) (u : User.t) (d' : Db) :
  run (register hash_password utcnow user) d = (inr u, d') ->
  let i := next_rowid (map Category.id (categories d)) in
  categories d' = (categories d ++ default_categories i (User.id u))%list
  /\ transactions d' = transactions d
  /\ users d' = (users d ++ [u])%list
  /\ User.email u = UserCreate.email user
  /\ ((forall c, In c (categories d) ->
         exists o, In o (users d) /\ User.id o = Category.owner_id c) ->
      filter (fun c => Category.owner_id c =? User.id u) (categories d')
      = default_categories i (User.id u)).
Proof.
  unfold register. session_unfold.
  destruct (find _ (users d)) as [x|]; simpl; [discriminate|].
  rewrite get_user_added. simpl.
  intros H. injection H as <- <-. simpl.
  set (i := next_rowid (map Category.id (categories d))).
  set (uid := next_rowid (map User.id (users d))).
  rewrite (next_rowid_add_category (categories d) i "General" uid eq_refl).
  rewrite (next_rowid_add_category
             (categories d ++ [Category.mk i "General" uid]) (i + 1)
             "Food" uid)
    by (symmetry; apply next_rowid_add_category; reflexivity).
  replace (i + 1 + 1) with (i + 2) by lia.
  rewrite <- !app_assoc. simpl. fold (default_categories i uid).
  repeat (split; [reflexivity|]).
  intros Href.
  rewrite filter_app, filter_none.
  - simpl. rewrite !Z.eqb_refl. reflexivity.
  - intros c Hc. apply Z.eqb_neq.
    destruct (Href c Hc) as [o [Ho <-]].
    pose proof (next_rowid_above (map User.id (users d)) (User.id o)
                  (in_map User.id _ o Ho)). lia.
Qed.

Lemma register_seeds_default_categories_witness :
  exists u d',
    run (register (fun pw => pw) 0 (UserCreate.mk "carol@example.com" "pw"))
      store_groceries = (inr u, d')
    /\ categories d'
       = (categories store_groceries ++ default_categories 3 3)%list
    /\ transactions d' = transactions store_groceries.
Proof.
  eexists. eexists. split; [vm_compute; reflexivity|].
  pose proof (register_seeds_default_categories (fun pw => pw) 0
                store_groceries (UserCreate.mk "carol@example.com" "pw")
                _ _ eq_refl) as H.
  cbv zeta in H. destruct H as [Hc [Ht _]].
  split; [exact Hc|exact Ht].
Defined.

(** ** The category check of the Transaction routes *)

(** The check reads the session and leaves it as it was. *)
Lemma check_category_cases (cat : option Z) (P : User.t) (s : Session) :
  check_category cat P s = (inr tt, s)
  \/ exists e,
       check_category cat P s = (inl e, s)
       /\ (e = not_found \/ e = OverflowError).
Proof.
  unfold check_category. destruct cat as [cid|]; [|now left].
  destruct (cid =? 0); [now left|]. session_unfold.
  destruct (get_category (pending s) cid) as [c|].
  - simpl. destruct (negb _); [right; eexists; split; eauto|now left].
  - destruct (in_int64 cid); right; eexists; split; eauto.
Qed.

(** A reference that is not 0 and not to a Category of the principal is
    refused. *)
Lemma check_category_refuses (cid : Z) (P : User.t) (s : Session) :
  cid <> 0 ->
  in_int64 cid = true ->
  ~ category_owned (pending s) cid (User.id P) ->
  check_category (Some cid) P s = (inl not_found, s).
Proof.
  intros Hz Hr Hno. unfold check_category.
  apply Z.eqb_neq in Hz. rewrite Hz. session_unfold.
  destruct (get_category (pending s) cid) as [c|] eqn:E;
    [|now rewrite Hr].
  simpl. destruct (Category.owner_id c =? User.id P) eqn:Eo; [|reflexivity].
  exfalso. apply Hno. exists c. split; [exact E|]. now apply Z.eqb_eq.
Qed.

(** What the check has established when it lets a request through. *)
Lemma check_category_passes (cat : option Z) (P : User.t) (s : Session) :
  check_category cat P s = (inr tt, s) ->
  match cat with
  | None => True
  | Some cid => cid = 0 \/ category_owned (pending s) cid (User.id P)
  end.
Proof.
  unfold check_category. destruct cat as [cid|]; [|trivial].
  destruct (cid =? 0) eqn:Ez; [intros _; left; now apply Z.eqb_eq|].
  session_unfold.
  destruct (get_category (pending s) cid) as [c|] eqn:E;
    [|destruct (in_int64 cid); discriminate].
  simpl. destruct (Category.owner_id c =? User.id P) eqn:Eo; [|discriminate].
  intros _. right. exists c. split; [exact E|]. now apply Z.eqb_eq.
Qed.

(** ** Creating and updating a Transaction *)

Lemma get_transaction_added (d : Db) (payload : TxIn.t) (owner : Z) :
  let t := new_transaction d payload owner in
  get_transaction (with_transactions d (transactions d ++ [t]))
    (Transaction.id t) = Some t.
Proof.
  intros t. unfold get_transaction. simpl. apply find_app_fresh.
  - intros y Hy. apply Z.eqb_neq.
    pose proof (next_rowid_above (map Transaction.id (transactions d))
                  (Transaction.id y) (in_map Transaction.id _ y Hy)).
    lia.
  - apply Z.eqb_refl.
Qed.

(** [create_transaction] as a function of the store: the check, then the new
    row appended and returned as the store now shows it. *)
Lemma create_transaction_run (payload : TxIn.t) (P : User.t) (d : Db) :
  run (create_transaction payload P) d
  = match check_category (TxIn.category_id payload) P (mkSession d d) with
    | (inl e, _) => (inl e, d)
    | (inr _, _) =>
        let t := new_transaction d payload (User.id P) in
        let d' := with_transactions d (transactions d ++ [t]) in
        (inr (tx_out d' t), d')
    end.
Proof.
  unfold create_transaction, run, bind at 1.
  destruct (check_category_cases (TxIn.category_id payload) P (mkSession d d))
    as [E|[e0 [E _]]]; rewrite E; [|reflexivity].
  session_unfold.
  pose proof (get_transaction_added d payload (User.id P)) as G.
  unfold with_transactions, new_transaction in *. simpl in G.
  rewrite G. reflexivity.
Qed.

Lemma get_transaction_replaced (d : Db) (tx : Transaction.t) (payload : TxIn.t) :
  get_transaction d (Transaction.id tx) = Some tx ->
  let t' := overwritten tx payload in
  get_transaction
    (with_transactions d
       (map (fun r => if Transaction.id r =? Transaction.id tx then t' else r)
          (transactions d)))
    (Transaction.id tx) = Some t'.
Proof.
  intros H t'. unfold get_transaction in *. simpl.
  apply (find_replace Transaction.id (Transaction.id tx) tx t'); auto.
Qed.

(** [update_transaction] as a function of the store. *)
Lemma update_transaction_run (tx_id : Z) (payload : TxIn.t) (P : User.t)
    (d : Db) :
  run (update_transaction tx_id payload P) d
  = match get_transaction d tx_id with
    | None =>
        (inl (missing tx_id (HTTPException 404 "Transaction not found")), d)
    | Some tx =>
        if negb (Transaction.owner_id tx =? User.id P)
        then (inl (HTTPException 404 "Transaction not found"), d)
        else
          match check_category (TxIn.category_id payload) P (mkSession d d)
          with
          | (inl e, _) => (inl e, d)
          | (inr _, _) =>
              let t' := overwritten tx payload in
              let d' :=
                with_transactions d
                  (map (fun r =>
                          if Transaction.id r =? tx_id then t' else r)
                     (transactions d)) in
              (inr (tx_out d' t'), d')
          end
    end.
Proof.
  unfold update_transaction, run, bind at 1.
  unfold db_get_transaction, db_get, missing.
  simpl. destruct (get_transaction d tx_id) as [tx|] eqn:G;
    [|destruct (in_int64 tx_id); reflexivity].
  destruct (negb _); [reflexivity|].
  unfold bind at 1.
  destruct (check_category_cases (TxIn.category_id payload) P (mkSession d d))
    as [E|[e0 [E _]]]; rewrite E; [|reflexivity].
  destruct (get_transaction_some _ _ _ G) as [_ Hid]. subst tx_id.
  session_unfold.
  pose proof (get_transaction_replaced d tx payload G) as R.
  unfold with_transactions, overwritten in *. simpl in R.
  rewrite R. reflexivity.
Qed.

(** A successful [create_transaction]: the store gained one row, built from
    the payload, the answer is that row as the store shows it, and the
    category check had passed. *)
Lemma create_transaction_inr (payload : TxIn.t) (P : User.t) (d d' : Db)
    (out : TxOut.t) :
  run (create_transaction payload P) d = (inr out, d') ->
  let t := new_transaction d payload (User.id P) in
  d' = with_transactions d (transactions d ++ [t])
  /\ out = tx_out d' t
  /\ get_transaction d' (Transaction.id t) = Some t
  /\ match TxIn.category_id payload with
     | None => True
     | Some cid => cid = 0 \/ category_owned d cid (User.id P)
     end.
Proof.
  rewrite create_transaction_run.
  destruct (check_category_cases (TxIn.category_id payload) P (mkSession d d))
    as [E|[e0 [E _]]]; rewrite E; [|discriminate].
  intros H t. injection H as <- <-.
  split; [reflexivity|]. split; [reflexivity|].
  split; [apply get_transaction_added|].
  apply (check_category_passes _ _ _ E).
Qed.

(** A failed [create_transaction] is the 404 of the category check, or the
    [OverflowError] of its lookup, and leaves the store as it was. *)
Lemma create_transaction_inl (payload : TxIn.t) (P : User.t) (d d' : Db)
    (e : error) :
  run (create_transaction payload P) d = (inl e, d') ->
  (e = not_found \/ e = OverflowError) /\ d' = d.
Proof.
  rewrite create_transaction_run.
  destruct (check_category_cases (TxIn.category_id payload) P (mkSession d d))
    as [E|[e0 [E He]]]; rewrite E; [discriminate|].
  intros H. injection H as <- <-. split; [exact He|reflexivity].
Qed.

Lemma update_transaction_inr (tx_id : Z) (payload : TxIn.t) (P : User.t)
    (d d' : Db) (out : TxOut.t) :
  run (update_transaction tx_id payload P) d = (inr out, d') ->
  exists tx,
    get_transaction d tx_id = Some tx
    /\ Transaction.owner_id tx = User.id P
    /\ let t' := overwritten tx payload in
       d' = with_transactions d
              (map (fun r => if Transaction.id r =? tx_id then t' else r)
                 (transactions d))
       /\ out = tx_out d' t'
       /\ get_transaction d' tx_id = Some t'
       /\ match TxIn.category_id payload with
          | None => True
          | Some cid => cid = 0 \/ category_owned d cid (User.id P)
          end.
Proof.
  rewrite update_transaction_run.
  destruct (get_transaction d tx_id) as [tx|] eqn:G; [|discriminate].
  destruct (Transaction.owner_id tx =? User.id P) eqn:Eo; [|discriminate].
  simpl.
  destruct (check_category_cases (TxIn.category_id payload) P (mkSession d d))
    as [E|[e0 [E _]]]; rewrite E; [|discriminate].
  intros H. injection H as <- <-. exists tx.
  split; [reflexivity|]. split; [now apply Z.eqb_eq|].
  split; [reflexivity|]. split; [reflexivity|].
  split; [|apply (check_category_passes _ _ _ E)].
  destruct (get_transaction_some _ _ _ G) as [_ Hid]. subst tx_id.
  apply (get_transaction_replaced d tx payload G).
Qed.

(** A failed [update_transaction] is a 404, or the [OverflowError] of a
    lookup, and leaves the store as it was. *)
Lemma update_transaction_inl (tx_id : Z) (payload : TxIn.t) (P : User.t)
    (d d' : Db) (e : error) :
  run (update_transaction tx_id payload P) d = (inl e, d') ->
  (e = HTTPException 404 "Transaction not found" \/ e = not_found
   \/ e = OverflowError) /\ d' = d.
Proof.
  rewrite update_transaction_run. unfold missing.
  destruct (get_transaction d tx_id) as [tx|].
  2:{ destruct (in_int64 tx_id); intros H; injection H as <- <-; auto. }
  destruct (negb _);
    [intros H; injection H as <- <-; split; [now left|reflexivity]|].
  destruct (check_category_cases (TxIn.category_id payload) P (mkSession d d))
    as [E|[e0 [E He]]]; rewrite E; [discriminate|].
  intros H. injection H as <- <-. split; [tauto|reflexivity].
Qed.

(** The check ends in the [OverflowError] of its lookup only for a
    reference outside the 64-bit range. *)
Lemma check_category_overflow (cat : option Z) (P : User.t) (s s' : Session) :
  check_category cat P s = (inl OverflowError, s') ->
  exists cid, cat = Some cid /\ in_int64 cid = false.
Proof.
  unfold check_category. destruct cat as [cid|]; [|discriminate].
  destruct (cid =? 0); [discriminate|]. session_unfold.
  destruct (get_category (pending s) cid) as [c|].
  - simpl. destruct (negb _); discriminate.
  - destruct (in_int64 cid) eqn:R; [discriminate|]. intros _. now exists cid.
Qed.

(** [update_transaction] ends in an [OverflowError] only for an id or a
    category reference outside the 64-bit range. *)
Lemma update_transaction_overflow (tx_id : Z) (payload : TxIn.t) (P : User.t)
    (d d' : Db) :
  run (update_transaction tx_id payload P) d = (inl OverflowError, d') ->
  in_int64 tx_id = false
  \/ exists cid, TxIn.category_id payload = Some cid /\ in_int64 cid = false.
Proof.
  rewrite update_transaction_run. unfold missing.
  destruct (get_transaction d tx_id) as [tx|].
  2:{ destruct (in_int64 tx_id); [discriminate|]. now left. }
  destruct (negb _); [discriminate|].
  destruct (check_category (TxIn.category_id payload) P (mkSession d d))
    as [[e0|u] s'] eqn:E; [|discriminate].
  intros H. injection H as -> _. right.
  now apply check_category_overflow in E.
Qed.

(** A category reference other than 0, within the 64-bit range, that is not
    to a Category of the principal makes both routes answer 404 and change
    nothing. *)
Lemma transaction_category_not_owned
    (tx_id cid : Z) (payload : TxIn.t) (P : User.t) (d : Db) :
  TxIn.category_id payload = Some cid ->
  cid <> 0 ->
  in_int64 cid = true ->
  in_int64 tx_id = true ->
  ~ category_owned d cid (User.id P) ->
  run (create_transaction payload P) d = (inl not_found, d)
  /\ exists e,
       run (update_transaction tx_id payload P) d = (inl e, d)
       /\ status_of e = 404.
Proof.
  intros Hc Hz Hr Ht Hno.
  pose proof (check_category_refuses cid P (mkSession d d) Hz Hr Hno) as R.
  split.
  - rewrite create_transaction_run, Hc, R. reflexivity.
  - rewrite update_transaction_run, Hc, R. unfold missing. rewrite Ht.
    destruct (get_transaction d tx_id) as [tx|]; [|eexists; split; reflexivity].
    destruct (negb _); eexists; split; reflexivity.
Qed.

(** C2. The category check is skipped for the reference 0: in a store with
    no Category 0, a create and an update that carry [category_id = 0] go
    through, and the row is stored with the reference 0. *)
Theorem category_zero_skips_the_check :
  get_category store_groceries 0 = None
  /\ run (create_transaction lunch_zero alice) store_groceries
     = (inr (TxOut.mk 4 (Date.mk 2024 2 1) "Lunch" (Finite (9 # 1)) "expense"
               (Some 0) None),
        with_transactions store_groceries
          (transactions store_groceries
           ++ [Transaction.mk 4 (Date.mk 2024 2 1) "Lunch" (Finite (9 # 1))
                 "expense" (Some 0) 1]))
  /\ exists d',
       run (update_transaction 2 lunch_zero alice) store_groceries
       = (inr (TxOut.mk 2 (Date.mk 2024 2 1) "Lunch" (Finite (9 # 1))
                 "expense" (Some 0) None), d')
       /\ get_transaction d' 2
          = Some (Transaction.mk 2 (Date.mk 2024 2 1) "Lunch" (Finite (9 # 1))
                    "expense" (Some 0) 1).
Proof.
  split; [reflexivity|]. split; [reflexivity|].
  eexists. split; reflexivity.
Qed.

(** ** Validation of the Transaction body *)






(** ** A failed update changes nothing *)

(** The two ways the lookup of the Transaction fails. *)
Lemma update_transaction_not_owned
    (tx_id : Z) (payload : TxIn.t) (P : User.t) (d : Db) :
  (forall t, In t (transactions d) ->
             Transaction.id t = tx_id -> Transaction.owner_id t <> User.id P) ->
  in_int64 tx_id = true ->
  run (update_transaction tx_id payload P) d
  = (inl (HTTPException 404 "Transaction not found"), d).
Proof.
  intros H R. rewrite update_transaction_run. unfold missing. rewrite R.
  destruct (get_transaction d tx_id) as [tx|] eqn:G; [|reflexivity].
  destruct (get_transaction_some _ _ _ G) as [Hin Hid].
  apply (H tx Hin) in Hid. apply Z.eqb_neq in Hid. now rewrite Hid.
Qed.

(** C10. When [update_transaction] fails, or the route fails before it on
    the body, the store after the request is the store before it: the
    targeted Transaction, if there is one, is the row it was, and so is every
    other row.  A failure of the handler is a 404 and a failure on the body
    the 422, but for the 500 of a lookup with an id or a category reference
    outside the 64-bit range and the 500 of a 422 that cannot be written, for
    an amount that is neither above zero nor finite. *)
Theorem failed_update_leaves_store_unchanged
    (tx_id : Z) (payload : TxIn.t) (P : User.t) (d d' : Db) (e : error) :
  run (update_transaction tx_id payload P) d = (inl e, d')
  \/ run (put_transactions tx_id payload P) d = (inl e, d') ->
  d' = d
  /\ get_transaction d' tx_id = get_transaction d tx_id
  /\ (status_of e = 404 \/ status_of e = 422 \/ status_of e = 500)
  /\ (status_of e = 500 ->
      in_int64 tx_id = false
      \/ (exists cid,
            TxIn.category_id payload = Some cid /\ in_int64 cid = false)
      \/ (float_gt0 (TxIn.amount payload) = false
          /\ float_finite (TxIn.amount payload) = false)).
Proof.
  assert (K : forall e0 d0,
             run (update_transaction tx_id payload P) d = (inl e0, d0) ->
             d0 = d
             /\ (status_of e0 = 404 \/ status_of e0 = 500)
             /\ (status_of e0 = 500 ->
                 in_int64 tx_id = false
                 \/ exists cid,
                      TxIn.category_id payload = Some cid
                      /\ in_int64 cid = false)).
  { intros e0 d0 H. pose proof H as H'. apply update_transaction_inl in H.
    destruct H as [[->|[->| ->]] ->]; split; auto; split; auto;
      try (intros S; discriminate S).
    intros _. exact (update_transaction_overflow _ _ _ _ _ H'). }
  intros [H|H].
  - destruct (K _ _ H) as [-> [Hs Hc]]. tauto.
  - unfold put_transactions, with_TxIn in H.
    destruct (TxIn.valid payload).
    + destruct (K _ _ H) as [-> [Hs Hc]]. tauto.
    + destruct (float_gt0 (TxIn.amount payload));
        destruct (float_finite (TxIn.amount payload));
        injection H as <- <-; simpl;
        (split; [reflexivity|]); (split; [reflexivity|]);
        (split; [auto|]); intros S; try discriminate S; auto.
Qed.

Lemma failed_update_leaves_store_unchanged_witness :
  run (update_transaction 1 groceries_bill bob) store_groceries
  = (inl (HTTPException 404 "Transaction not found"), store_groceries)
  /\ store_groceries = store_groceries
  /\ get_transaction store_groceries 1 = get_transaction store_groceries 1
  /\ (status_of (HTTPException 404 "Transaction not found") = 404
      \/ status_of (HTTPException 404 "Transaction not found") = 422
      \/ status_of (HTTPException 404 "Transaction not found") = 500).
Proof.
  assert (R : run (update_transaction 1 groceries_bill bob) store_groceries
              = (inl (HTTPException 404 "Transaction not found"),
                 store_groceries)) by reflexivity.
  split; [exact R|].
  destruct (failed_update_leaves_store_unchanged 1 groceries_bill bob
              store_groceries store_groceries _ (or_introl R))
    as [E [G [S _]]].
  split; [exact E|]. split; [exact G|exact S].
Defined.

(** ** Dates *)

Lemma date_leb_iff (a b : Date.t) :
  Date.leb a b = true <->
  Date.year a < Date.year b
  \/ (Date.year a = Date.year b
      /\ (Date.month a < Date.month b
          \/ (Date.month a = Date.month b /\ Date.day a <= Date.day b))).
Proof.
  unfold Date.leb.
  rewrite !orb_true_iff, !andb_true_iff, !orb_true_iff, !andb_true_iff,
    !Z.ltb_lt, !Z.eqb_eq, Z.leb_le.
  tauto.
Qed.

Lemma date_leb_total (a b : Date.t) :
  Date.leb a b = false -> Date.leb b a = true.
Proof.
  intros H. apply date_leb_iff.
  assert (N : ~ (Date.leb a b = true)) by (rewrite H; discriminate).
  rewrite date_leb_iff in N. lia.
Qed.

Lemma date_leb_trans (a b c : Date.t) :
  Date.leb a b = true -> Date.leb b c = true -> Date.leb a c = true.
Proof. rewrite !date_leb_iff. lia. Qed.

(** ** Ordering and paging *)

Lemma insert_desc_perm (x : Transaction.t) (l : list Transaction.t) :
  Permutation (insert_desc x l) (x :: l).
Proof.
  induction l as [|y l IH]; simpl; [apply Permutation_refl|].
  destruct (Date.leb _ _); [|apply Permutation_refl].
  eapply perm_trans; [apply perm_skip, IH|apply perm_swap].
Qed.

Lemma order_by_date_desc_perm (l : list Transaction.t) :
  Permutation (order_by_date_desc l) l.
Proof.
  induction l as [|x l IH]; simpl; [constructor|].
  eapply perm_trans; [apply insert_desc_perm|now apply perm_skip].
Qed.

Lemma insert_desc_sorted (x : Transaction.t) (l : list Transaction.t) :
  StronglySorted date_desc l -> StronglySorted date_desc (insert_desc x l).
Proof.
  induction l as [|y l IH]; simpl; intros S.
  - constructor; constructor.
  - destruct (Date.leb (Transaction.date x) (Transaction.date y)) eqn:E.
    + inversion S as [|? ? S' Hy]; subst.
      constructor; [now apply IH|].
      apply Forall_forall. intros z Hz.
      apply (Permutation_in _ (insert_desc_perm x l)) in Hz.
      destruct Hz as [<-|Hz].
      * exact E.
      * rewrite Forall_forall in Hy. now apply Hy.
    + apply date_leb_total in E.
      constructor; [exact S|]. constructor; [exact E|].
      inversion S as [|? ? _ Hy]; subst.
      eapply Forall_impl; [|exact Hy]. intros z Hz.
      unfold date_desc in *. eapply date_leb_trans; eassumption.
Qed.

Lemma order_by_date_desc_sorted (l : list Transaction.t) :
  StronglySorted date_desc (order_by_date_desc l).
Proof.
  induction l as [|x l IH]; simpl; [constructor|].
  now apply insert_desc_sorted.
Qed.

Lemma in_firstn {A} (n : nat) (l : list A) (x : A) :
  In x (firstn n l) -> In x l.
Proof.
  revert l. induction n as [|n IH]; intros [|y l]; simpl; try tauto.
  intros [H|H]; [now left|right; now apply IH].
Qed.

Lemma in_skipn {A} (n : nat) (l : list A) (x : A) :
  In x (skipn n l) -> In x l.
Proof.
  revert l. induction n as [|n IH]; intros [|y l]; simpl; try tauto.
  intros H. right. now apply IH.
Qed.

Lemma StronglySorted_skipn {A} (R : A -> A -> Prop) (n : nat) (l : list A) :
  StronglySorted R l -> StronglySorted R (skipn n l).
Proof.
  revert l. induction n as [|n IH]; intros l S; [exact S|].
  destruct l as [|x l]; [exact S|]. simpl. apply IH.
  now inversion S.
Qed.

Lemma StronglySorted_firstn {A} (R : A -> A -> Prop) (n : nat) (l : list A) :
  StronglySorted R l -> StronglySorted R (firstn n l).
Proof.
  revert l. induction n as [|n IH]; intros l S; [constructor|].
  destruct l as [|x l]; [constructor|]. simpl.
  inversion S as [|? ? S' Hx]; subst. constructor; [now apply IH|].
  apply Forall_forall. intros z Hz. rewrite Forall_forall in Hx.
  apply Hx. eapply in_firstn. exact Hz.
Qed.

Lemma limit_offset_sorted {A} (R : A -> A -> Prop) (limit offset : Z)
    (l : list A) :
  StronglySorted R l -> StronglySorted R (limit_offset limit offset l).
Proof.
  intros S. unfold limit_offset. destruct (limit <? 0).
  - now apply StronglySorted_skipn.
  - now apply StronglySorted_firstn, StronglySorted_skipn.
Qed.

Lemma limit_offset_in {A} (limit offset : Z) (l : list A) (x : A) :
  In x (limit_offset limit offset l) -> In x l.
Proof.
  unfold limit_offset. intros H.
  destruct (limit <? 0);
    [|apply in_firstn in H]; eapply in_skipn; exact H.
Qed.

(** A page from the start that is long enough is the whole result. *)
Lemma limit_offset_all {A} (limit offset : Z) (l : list A) :
  offset <= 0 ->
  limit < 0 \/ Z.of_nat (List.length l) <= limit ->
  limit_offset limit offset l = l.
Proof.
  intros Ho Hl. unfold limit_offset.
  replace (Z.to_nat offset) with 0%nat by lia. simpl.
  destruct (limit <? 0) eqn:E; [reflexivity|].
  apply Z.ltb_ge in E. apply firstn_all2. lia.
Qed.

Lemma StronglySorted_map {A B} (R : A -> A -> Prop) (R' : B -> B -> Prop)
    (f : A -> B) (l : list A) :
  (forall a b, R a b -> R' (f a) (f b)) ->
  StronglySorted R l -> StronglySorted R' (map f l).
Proof.
  intros Hf. induction 1 as [|x l S IH Hx]; simpl; constructor; [exact IH|].
  apply Forall_forall. intros y Hy. apply in_map_iff in Hy.
  destruct Hy as [z [<- Hz]]. rewrite Forall_forall in Hx. auto.
Qed.

(** ** Listing *)

Lemma map_m_to_TxOut (l : list Transaction.t) (s : Session) :
  map_m to_TxOut l s = (inr (map (tx_out (pending s)) l), s).
Proof.
  induction l as [|t l IH]; simpl; [reflexivity|].
  unfold bind at 1. unfold to_TxOut at 1, read at 1.
  unfold bind at 1. rewrite IH. reflexivity.
Qed.

(** [list_transactions] as a function of the store: it reads and does not
    write. *)
Lemma list_transactions_run (P : User.t) (q ty : option string)
    (cat : option Z) (st en : option Date.t) (limit offset : Z) (d : Db) :
  run (list_transactions P q ty cat st en limit offset) d
  = (inr (map (tx_out d)
            (limit_offset limit offset
               (order_by_date_desc
                  (filter (list_stmt P q ty cat st en) (transactions d))))),
     d).
Proof.
  unfold run, list_transactions, bind, db_scalars_transactions, read.
  rewrite map_m_to_TxOut. reflexivity.
Qed.

Lemma where_true (stmt cond : Transaction.t -> bool) (t : Transaction.t) :
  where_ stmt cond t = true <-> stmt t = true /\ cond t = true.
Proof. unfold where_. apply andb_true_iff. Qed.

(** Every row of a listing statement belongs to the principal. *)
Lemma list_stmt_owned (P : User.t) (q ty : option string) (cat : option Z)
    (st en : option Date.t) (t : Transaction.t) :
  list_stmt P q ty cat st en t = true -> owned_by P t = true.
Proof.
  unfold list_stmt, owned_by.
  destruct q as [[|c r]|]; destruct ty as [k|];
    try destruct (String.eqb k "expense" || String.eqb k "income");
    destruct cat as [cid|]; try destruct (cid =? 0);
    destruct st as [s|]; destruct en as [e|];
    rewrite ?where_true; tauto.
Qed.

(** With both dates given, every row is within them. *)
Lemma list_stmt_in_range (P : User.t) (q ty : option string) (cat : option Z)
    (s e : Date.t) (t : Transaction.t) :
  list_stmt P q ty cat (Some s) (Some e) t = true -> in_range s e t = true.
Proof.
  unfold list_stmt, in_range. rewrite !where_true, andb_true_iff. tauto.
Qed.

(** With a category id other than 0, every row refers to it. *)
Lemma list_stmt_in_category (P : User.t) (q ty : option string) (cid : Z)
    (st en : option Date.t) (t : Transaction.t) :
  cid <> 0 ->
  list_stmt P q ty (Some cid) st en t = true -> in_category cid t = true.
Proof.
  intros Hz. apply Z.eqb_neq in Hz. unfold list_stmt, in_category.
  rewrite Hz. destruct st as [s|]; destruct en as [e|];
    rewrite ?where_true; tauto.
Qed.

(** With one of the two kinds, every row is of it. *)
Lemma list_stmt_of_kind (P : User.t) (q : option string) (k : string)
    (cat : option Z) (st en : option Date.t) (t : Transaction.t) :
  TxIn.type_ok k = true ->
  list_stmt P q (Some k) cat st en t = true -> of_kind k t = true.
Proof.
  unfold TxIn.type_ok. intros Hk. unfold list_stmt, of_kind. rewrite Hk.
  destruct cat as [cid|]; try destruct (cid =? 0);
    destruct st as [s|]; destruct en as [e|];
    rewrite ?where_true; tauto.
Qed.

Lemma filter_ext_bool {A} (f g : A -> bool) (l : list A) :
  (forall x, f x = g x) -> filter f l = filter g l.
Proof. intros H. apply filter_ext. exact H. Qed.

(** What a listing returns, item by item. *)
Lemma listing_items (P : User.t) (q ty : option string) (cat : option Z)
    (st en : option Date.t) (limit offset : Z) (d : Db) (o : TxOut.t) :
  In o (map (tx_out d)
          (limit_offset limit offset
             (order_by_date_desc
                (filter (list_stmt P q ty cat st en) (transactions d))))) ->
  exists t,
    o = tx_out d t /\ In t (transactions d)
    /\ list_stmt P q ty cat st en t = true.
Proof.
  intros H. apply in_map_iff in H. destruct H as [t [<- Ht]].
  apply limit_offset_in in Ht.
  apply (Permutation_in _ (order_by_date_desc_perm _)) in Ht.
  apply filter_In in Ht. exists t. tauto.
Qed.

Lemma listing_sorted (f : Transaction.t -> bool) (limit offset : Z) (d : Db) :
  StronglySorted out_date_desc
    (map (tx_out d)
       (limit_offset limit offset
          (order_by_date_desc (filter f (transactions d))))).
Proof.
  apply (StronglySorted_map date_desc); [intros a b H; exact H|].
  apply limit_offset_sorted, order_by_date_desc_sorted.
Qed.

(** A page that covers the result holds the filtered rows, each once. *)
Lemma listing_complete (f g : Transaction.t -> bool) (limit offset : Z)
    (d : Db) :
  (forall t, f t = g t) ->
  covers limit offset (List.length (filter g (transactions d))) ->
  Permutation
    (map (tx_out d)
       (limit_offset limit offset
          (order_by_date_desc (filter f (transactions d)))))
    (map (tx_out d) (filter g (transactions d))).
Proof.
  intros Hfg [Ho Hl]. rewrite (filter_ext_bool f g _ Hfg).
  apply Permutation_map. rewrite limit_offset_all.
  - apply order_by_date_desc_perm.
  - exact Ho.
  - rewrite (Permutation_length (order_by_date_desc_perm _)). exact Hl.
Qed.

(** The two date filters together are the test of the inclusive range. *)
Lemma list_stmt_dates (P : User.t) (q ty : option string) (cat : option Z)
    (s e : Date.t) (t : Transaction.t) :
  list_stmt P q ty cat (Some s) (Some e) t
  = list_stmt P q ty cat None None t && in_range s e t.
Proof. unfold list_stmt, where_, in_range. now rewrite andb_assoc. Qed.

(** The kind and category filters, each applied or skipped, on top of the
    other filters. *)
Lemma list_stmt_filters (P : User.t) (q ty : option string) (cat : option Z)
    (st en : option Date.t) (t : Transaction.t) :
  list_stmt P q ty cat st en t
  = list_stmt P q None None st en t
    && match cat with
       | Some cid => (cid =? 0) || in_category cid t
       | None => true
       end
    && match ty with
       | Some k => negb (TxIn.type_ok k) || of_kind k t
       | None => true
       end.
Proof.
  unfold list_stmt, where_, in_category, of_kind, TxIn.type_ok.
  destruct q as [[|c r]|]; destruct ty as [k|];
    try destruct (String.eqb k "expense" || String.eqb k "income");
    destruct cat as [cid|]; try destruct (cid =? 0);
    destruct st as [s|]; destruct en as [e|]; simpl;
    rewrite ?andb_true_r; try reflexivity;
    repeat match goal with
           | |- context [Transaction.owner_id t =? ?u] =>
               destruct (Transaction.owner_id t =? u); simpl
           | |- context [ilike ?a ?b] => destruct (ilike a b); simpl
           | |- context [Date.leb ?a ?b] => destruct (Date.leb a b); simpl
           | |- context [String.eqb ?a ?b] => destruct (String.eqb a b); simpl
           | |- context [match ?o with Some _ => _ | None => _ end] =>
               destruct o; simpl
           | |- context [?a =? ?b] => destruct (a =? b); simpl
           end; reflexivity.
Qed.

(** The rows of a statement, in the order of the listing. *)
Lemma listing_rows (f g : Transaction.t -> bool) (d : Db) :
  (forall t, f t = g t) ->
  StronglySorted date_desc (order_by_date_desc (filter f (transactions d)))
  /\ Permutation (order_by_date_desc (filter f (transactions d)))
       (filter g (transactions d)).
Proof.
  intros H. split; [apply order_by_date_desc_sorted|].
  rewrite <- (filter_ext_bool f g _ H). apply order_by_date_desc_perm.
Qed.

(** C6. A listing with both dates given, its parameters within what SQLite
    accepts, succeeds and leaves the store as it is.  The result is a page:
    the rows of the principal that pass the other filters and whose date
    lies between [s] and [e], both ends included, put in descending order
    of date, without the first [offset] of them and cut to [limit] rows
    unless [limit] is negative.  So every item is one of the principal's
    Transactions of the range, the items are in descending order of date,
    and when no other filter is given and the page covers the matching
    rows, the result holds exactly the principal's Transactions of that
    range. *)
Theorem listing_by_date_range
    (P : User.t) (q ty : option string) (cat : option Z) (s e : Date.t)
    (limit offset : Z) (d : Db) :
  servable q cat limit offset = true ->
  exists rows out,
    run (list_transactions P q ty cat (Some s) (Some e) limit offset) d
    = (inr out, d)
    /\ StronglySorted date_desc rows
    /\ Permutation rows
         (filter (fun t => list_stmt P q ty cat None None t && in_range s e t)
            (transactions d))
    /\ out = map (tx_out d)
               (if limit <? 0 then skipn (Z.to_nat offset) rows
                else firstn (Z.to_nat limit) (skipn (Z.to_nat offset) rows))
    /\ (forall o, In o out ->
          Date.leb s (TxOut.date o) = true
          /\ Date.leb (TxOut.date o) e = true
          /\ exists t,
               o = tx_out d t /\ In t (transactions d)
               /\ Transaction.owner_id t = User.id P)
    /\ StronglySorted out_date_desc out
    /\ (q = None -> ty = None -> cat = None ->
        Permutation rows
          (filter (fun t => owned_by P t && in_range s e t)
             (transactions d)))
    /\ (q = None -> ty = None -> cat = None ->
        covers limit offset
          (List.length
             (filter (fun t => owned_by P t && in_range s e t)
                (transactions d))) ->
        Permutation out
          (map (tx_out d)
             (filter (fun t => owned_by P t && in_range s e t)
                (transactions d)))).
Proof.
  intros _.
  exists (order_by_date_desc
            (filter (list_stmt P q ty cat (Some s) (Some e))
               (transactions d))).
  eexists. split; [apply list_transactions_run|].
  destruct (listing_rows (list_stmt P q ty cat (Some s) (Some e))
              (fun t => list_stmt P q ty cat None None t && in_range s e t)
              d (list_stmt_dates P q ty cat s e)) as [S Pm].
  split; [exact S|]. split; [exact Pm|].
  split; [reflexivity|].
  split; [|split; [apply listing_sorted|split]].
  - intros o Ho. apply listing_items in Ho. destruct Ho as [t [-> [Hin Hs]]].
    pose proof (list_stmt_in_range _ _ _ _ _ _ _ Hs) as R.
    pose proof (list_stmt_owned _ _ _ _ _ _ _ Hs) as O.
    apply andb_true_iff in R. destruct R as [R1 R2].
    simpl. split; [exact R1|]. split; [exact R2|].
    exists t. split; [reflexivity|]. split; [exact Hin|].
    now apply Z.eqb_eq.
  - intros -> -> ->. exact Pm.
  - intros -> -> -> C. apply listing_complete; [|exact C].
    intros t. unfold list_stmt, where_, owned_by, in_range.
    now rewrite andb_assoc.
Qed.

Lemma listing_by_date_range_witness :
  exists out,
    run (list_transactions alice None None None
           (Some (Date.mk 2024 1 6)) (Some (Date.mk 2024 1 20)) 1 1)
      store_groceries = (inr out, store_groceries)
    /\ map TxOut.id out = [2].
Proof.
  destruct (listing_by_date_range alice None None None
              (Date.mk 2024 1 6) (Date.mk 2024 1 20) 1 1 store_groceries
              eq_refl)
    as [rows [out [Hrun _]]].
  exists out. split; [exact Hrun|].
  vm_compute in Hrun. injection Hrun as <-. reflexivity.
Defined.

(** C6, as stated, fails on the default page: with 51 Transactions of the
    principal in the range and [limit = 50], [offset = 0], the listing
    returns the 50 latest and the Transaction of 1 January is not among
    them. *)
Lemma listing_default_page_is_not_the_whole_range :
  exists out,
    run (list_transactions alice None None None
           (Some (Date.mk 2024 1 1)) (Some (Date.mk 2024 12 31)) 50 0)
      store_busy = (inr out, store_busy)
    /\ List.length
         (filter (fun t =>
                    owned_by alice t
                    && in_range (Date.mk 2024 1 1) (Date.mk 2024 12 31) t)
            (transactions store_busy)) = 51%nat
    /\ List.length out = 50%nat
    /\ exists t,
         In t (transactions store_busy)
         /\ owned_by alice t = true
         /\ in_range (Date.mk 2024 1 1) (Date.mk 2024 12 31) t = true
         /\ ~ In (Transaction.id t) (map TxOut.id out).
Proof.
  eexists. split; [apply list_transactions_run|].
  split; [reflexivity|]. split; [reflexivity|].
  exists (Transaction.mk 1 (Date.mk 2024 1 1) "Coffee" (Finite (2 # 1))
            "expense" None 1).
  split; [vm_compute; left; reflexivity|].
  split; [reflexivity|]. split; [reflexivity|].
  vm_compute. intros H.
  repeat (destruct H as [H|H]; [discriminate H|]). exact H.
Qed.

(** C7. A listing, its parameters within what SQLite accepts, succeeds and
    leaves the store as it is.  With a category id other than 0, every item
    is one of the principal's Transactions that refer to that Category; with
    the kind "expense" or "income", every item is of that kind; any other
    kind is ignored, the listing being the one of the request without a
    kind.  The result is a page: the rows that pass the filters applied,
    put in descending order of date, without the first [offset] of them and
    cut to [limit] rows unless [limit] is negative.  So when the filter is
    the only one given and the page covers the matching rows, the result
    holds exactly the principal's Transactions of that Category,
    respectively of that kind. *)
Theorem listing_by_category_and_kind
    (P : User.t) (q ty : option string) (cat : option Z)
    (st en : option Date.t) (limit offset : Z) (d : Db) :
  servable q cat limit offset = true ->
  exists rows out,
    run (list_transactions P q ty cat st en limit offset) d = (inr out, d)
    /\ StronglySorted date_desc rows
    /\ Permutation rows
         (filter
            (fun t =>
               list_stmt P q None None st en t
               && match cat with
                  | Some cid => (cid =? 0) || in_category cid t
                  | None => true
                  end
               && match ty with
                  | Some k => negb (TxIn.type_ok k) || of_kind k t
                  | None => true
                  end)
            (transactions d))
    /\ out = map (tx_out d)
               (if limit <? 0 then skipn (Z.to_nat offset) rows
                else firstn (Z.to_nat limit) (skipn (Z.to_nat offset) rows))
    /\ (forall cid, cat = Some cid -> cid <> 0 ->
          (forall o, In o out ->
             TxOut.category_id o = Some cid
             /\ exists t,
                  o = tx_out d t /\ In t (transactions d)
                  /\ Transaction.owner_id t = User.id P)
          /\ (q = None -> ty = None -> st = None -> en = None ->
              covers limit offset
                (List.length
                   (filter (fun t => owned_by P t && in_category cid t)
                      (transactions d))) ->
              Permutation out
                (map (tx_out d)
                   (filter (fun t => owned_by P t && in_category cid t)
                      (transactions d)))))
    /\ (forall k, ty = Some k -> k = "expense" \/ k = "income" ->
          (forall o, In o out ->
             TxOut.type o = k
             /\ exists t,
                  o = tx_out d t /\ In t (transactions d)
                  /\ Transaction.owner_id t = User.id P)
          /\ (q = None -> cat = None -> st = None -> en = None ->
              covers limit offset
                (List.length
                   (filter (fun t => owned_by P t && of_kind k t)
                      (transactions d))) ->
              Permutation out
                (map (tx_out d)
                   (filter (fun t => owned_by P t && of_kind k t)
                      (transactions d)))))
    /\ (forall k, ty = Some k -> k <> "expense" -> k <> "income" ->
          run (list_transactions P q None cat st en limit offset) d
          = (inr out, d)).
Proof.
  intros _.
  exists (order_by_date_desc
            (filter (list_stmt P q ty cat st en) (transactions d))).
  eexists. split; [apply list_transactions_run|].
  split; [apply order_by_date_desc_sorted|].
  split; [apply listing_rows, list_stmt_filters|].
  split; [reflexivity|]. split; [|split].
  - intros cid -> Hz. split.
    + intros o Ho. apply listing_items in Ho.
      destruct Ho as [t [-> [Hin Hs]]].
      pose proof (list_stmt_in_category _ _ _ _ _ _ _ Hz Hs) as C.
      pose proof (list_stmt_owned _ _ _ _ _ _ _ Hs) as O.
      split.
      * simpl. unfold in_category in C.
        destruct (Transaction.category_id t) as [c|]; [|discriminate].
        apply Z.eqb_eq in C. now subst c.
      * exists t. split; [reflexivity|]. split; [exact Hin|].
        now apply Z.eqb_eq.
    + intros -> -> -> -> C. apply listing_complete; [|exact C].
      intros t. unfold list_stmt, where_, owned_by, in_category.
      apply Z.eqb_neq in Hz. now rewrite Hz.
  - intros k -> Hk.
    assert (Hok : TxIn.type_ok k = true)
      by (destruct Hk as [-> | ->]; reflexivity).
    split.
    + intros o Ho. apply listing_items in Ho.
      destruct Ho as [t [-> [Hin Hs]]].
      pose proof (list_stmt_of_kind _ _ _ _ _ _ _ Hok Hs) as K.
      pose proof (list_stmt_owned _ _ _ _ _ _ _ Hs) as O.
      split; [now apply String.eqb_eq|].
      exists t. split; [reflexivity|]. split; [exact Hin|].
      now apply Z.eqb_eq.
    + intros -> -> -> -> C. apply listing_complete; [|exact C].
      intros t. unfold list_stmt, where_, owned_by, of_kind.
      unfold TxIn.type_ok in Hok. now rewrite Hok.
  - intros k -> H1 H2. rewrite list_transactions_run.
    apply String.eqb_neq in H1, H2.
    assert (E : forall t,
               list_stmt P q (Some k) cat st en t
               = list_stmt P q None cat st en t)
      by (intros t; unfold list_stmt; now rewrite H1, H2).
    now rewrite (filter_ext_bool _ _ _ E).
Qed.

Lemma listing_by_category_and_kind_witness :
  exists out,
    run (list_transactions alice None (Some "transfer") (Some 1) None None
           1 1)
      store_groceries = (inr out, store_groceries)
    /\ map TxOut.id out = [1]
    /\ run (list_transactions alice None None (Some 1) None None 1 1)
         store_groceries = (inr out, store_groceries).
Proof.
  destruct (listing_by_category_and_kind alice None (Some "transfer")
              (Some 1) None None 1 1 store_groceries eq_refl)
    as [rows [out [Hrun [_ [_ [_ [_ [_ Hk]]]]]]]].
  exists out. split; [exact Hrun|]. split.
  - vm_compute in Hrun. injection Hrun as <-. reflexivity.
  - apply (Hk "transfer" eq_refl); discriminate.
Defined.

(** C7, as stated, fails for a kind that is neither "expense" nor "income":
    the filter is not applied, and the listing returns the principal's
    Transactions whatever their kind, none of which is of the kind asked
    for. *)
Lemma listing_ignores_an_unknown_kind :
  exists out,
    run (list_transactions alice None (Some "transfer") None None None 50 0)
      store_groceries = (inr out, store_groceries)
    /\ map TxOut.type out = ["expense"; "expense"; "expense"]
    /\ filter (fun t => owned_by alice t && of_kind "transfer" t)
         (transactions store_groceries) = [].
Proof.
  eexists. split; [apply list_transactions_run|].
  split; reflexivity.
Qed.

(** ** Reading a created Transaction back *)

Lemma filter_perm {A} (f : A -> bool) (l l' : list A) :
  Permutation l l' -> Permutation (filter f l) (filter f l').
Proof.
  induction 1 as [|x l l' H IH|x y l|l l' l'' H1 IH1 H2 IH2]; simpl.
  - constructor.
  - destruct (f x); [now apply perm_skip|exact IH].
  - destruct (f x), (f y);
      try apply perm_swap; apply Permutation_refl.
  - eapply perm_trans; eassumption.
Qed.

Lemma filter_id_tx_out (d : Db) (i : Z) (l : list Transaction.t) :
  filter (fun o => TxOut.id o =? i) (map (tx_out d) l)
  = map (tx_out d) (filter (fun t => Transaction.id t =? i) l).
Proof.
  induction l as [|t l IH]; simpl; [reflexivity|].
  destruct (Transaction.id t =? i); simpl; now rewrite IH.
Qed.

(** Among the rows of [d] and the row just created, only the latter has the
    new id. *)
Lemma only_the_new_row (d : Db) (payload : TxIn.t) (P : User.t) :
  let t := new_transaction d payload (User.id P) in
  filter (fun r => Transaction.id r =? Transaction.id t)
    (filter (owned_by P) (transactions d ++ [t])) = [t].
Proof.
  intros t. rewrite filter_app, filter_app. simpl.
  unfold owned_by at 2. simpl. rewrite Z.eqb_refl. simpl.
  rewrite Z.eqb_refl. rewrite filter_none; [reflexivity|].
  intros r Hr. apply filter_In in Hr. destruct Hr as [Hr _].
  apply Z.eqb_neq.
  pose proof (next_rowid_above (map Transaction.id (transactions d))
                (Transaction.id r) (in_map Transaction.id _ r Hr)).
  lia.
Qed.

(** C9. After a successful create, the answer carries the date, description,
    amount, kind and category reference of the request, and the name of the
    Category the reference resolves to (no name without a reference; the
    name of the principal's own Category for a reference other than 0).
    Reading the row back by the id of the answer gives a row of the
    principal that presents as the same answer, and a listing whose page
    covers the principal's rows has, under that id, exactly the answer. *)
Theorem created_transaction_reads_back
    (payload : TxIn.t) (P : User.t) (d d' : Db) (out : TxOut.t) :
  run (create_transaction payload P) d = (inr out, d') ->
  (TxOut.date out = TxIn.date payload
   /\ TxOut.description out = TxIn.description payload
   /\ TxOut.amount out = TxIn.amount payload
   /\ TxOut.type out = TxIn.type payload
   /\ TxOut.category_id out = TxIn.category_id payload)
  /\ (TxIn.category_id payload = None -> TxOut.category_name out = None)
  /\ (forall cid, TxIn.category_id payload = Some cid -> cid <> 0 ->
        exists c,
          get_category d' cid = Some c
          /\ Category.owner_id c = User.id P
          /\ TxOut.category_name out = Some (Category.name c))
  /\ (exists t,
        get_transaction d' (TxOut.id out) = Some t
        /\ Transaction.owner_id t = User.id P
        /\ tx_out d' t = out)
  /\ (forall limit offset,
        covers limit offset
          (List.length (filter (owned_by P) (transactions d'))) ->
        exists l,
          run (list_transactions P None None None None None limit offset) d'
          = (inr l, d')
          /\ filter (fun o => TxOut.id o =? TxOut.id out) l = [out]).
Proof.
  intros H. apply create_transaction_inr in H.
  destruct H as [Hd [Ho [Hget Hcat]]].
  set (t := new_transaction d payload (User.id P)) in *.
  split; [subst out; simpl; repeat split; reflexivity|].
  split.
  { intros Hn. subst out. unfold tx_out, tx_category. simpl.
    now rewrite Hn. }
  split.
  { intros cid Hc Hz. rewrite Hc in Hcat.
    destruct Hcat as [Hcat|[c [Hg Hown]]]; [contradiction|].
    exists c. subst out d'. unfold tx_out, tx_category. simpl.
    rewrite Hc. unfold get_category in *. simpl. rewrite Hg. auto. }
  split.
  { exists t. subst out. simpl. split; [exact Hget|]. split; reflexivity. }
  intros limit offset [Hoff Hlim].
  eexists. split; [apply list_transactions_run|].
  change (list_stmt P None None None None None) with (owned_by P).
  rewrite limit_offset_all;
    [|exact Hoff
     |rewrite (Permutation_length (order_by_date_desc_perm _)); exact Hlim].
  rewrite filter_id_tx_out.
  assert (E : filter (fun r => Transaction.id r =? TxOut.id out)
                (order_by_date_desc (filter (owned_by P) (transactions d')))
              = [t]).
  { apply Permutation_length_1_inv. apply Permutation_sym.
    eapply perm_trans;
      [apply filter_perm, order_by_date_desc_perm|].
    subst out d'.
    exact (eq_ind_r (fun z => Permutation z [t]) (Permutation_refl [t])
             (only_the_new_row d payload P)). }
  rewrite E. subst out. reflexivity.
Qed.

Lemma created_transaction_reads_back_witness :
  exists out d',
    run (create_transaction bakery_again alice) store_groceries = (inr out, d')
    /\ out = TxOut.mk 4 (Date.mk 2024 1 25) "Bakery" (Finite (7 # 2))
               "expense" (Some 1) (Some "Food")
    /\ exists l,
         run (list_transactions alice None None None None None 50 0) d'
         = (inr l, d')
         /\ filter (fun o => TxOut.id o =? 4) l = [out].
Proof.
  eexists. eexists. split; [vm_compute; reflexivity|].
  split; [reflexivity|].
  refine (proj2 (proj2 (proj2 (proj2
            (created_transaction_reads_back bakery_again alice store_groceries
               _ _ eq_refl)))) 50 0 _).
  split; simpl; lia.
Defined.

(** ** The token dependency *)

(** C8. A token that [jwt.decode] rejects (it does not decode, its signature
    does not verify, it has expired), a token whose subject is not an
    integer, and a token whose subject is an integer within the 64-bit range
    and the id of no User all fail with the status 401; the store is not
    touched.  The status is the same in these cases; the detail is "Invalid
    token" in the first two and "User not found" in the third.  The lookup
    of the User is outside the [try]: a subject outside the 64-bit range
    ends in its [OverflowError], a 500, and nothing else makes
    [get_user_from_token] fail. *)
Theorem bad_token_is_unauthenticated
    (jwt_decode : string -> jwt_error + list (string * pyval))
    (int_of_str : string -> option Z) (token : string) (d : Db) :
  (forall err,
      jwt_decode token = inl err ->
      run (get_user_from_token jwt_decode int_of_str token) d
      = (inl (HTTPException 401 "Invalid token"), d))
  /\ (forall payload,
        jwt_decode token = inr payload ->
        py_int int_of_str (dict_get payload "sub") = None ->
        run (get_user_from_token jwt_decode int_of_str token) d
        = (inl (HTTPException 401 "Invalid token"), d))
  /\ (forall payload uid,
        jwt_decode token = inr payload ->
        py_int int_of_str (dict_get payload "sub") = Some uid ->
        get_user d uid = None ->
        in_int64 uid = true ->
        run (get_user_from_token jwt_decode int_of_str token) d
        = (inl (HTTPException 401 "User not found"), d))
  /\ (forall payload uid,
        jwt_decode token = inr payload ->
        py_int int_of_str (dict_get payload "sub") = Some uid ->
        get_user d uid = None ->
        in_int64 uid = false ->
        run (get_user_from_token jwt_decode int_of_str token) d
        = (inl OverflowError, d))
  /\ (forall e d',
        run (get_user_from_token jwt_decode int_of_str token) d = (inl e, d') ->
        d' = d
        /\ (status_of e = 401
            \/ (e = OverflowError
                /\ exists payload uid,
                     jwt_decode token = inr payload
                     /\ py_int int_of_str (dict_get payload "sub") = Some uid
                     /\ in_int64 uid = false))).
Proof.
  unfold get_user_from_token.
  split; [|split; [|split; [|split]]].
  - intros err ->. reflexivity.
  - intros payload -> ->. reflexivity.
  - intros payload uid -> -> G R. session_unfold. now rewrite G, R.
  - intros payload uid -> -> G R. session_unfold. now rewrite G, R.
  - intros e d'.
    destruct (jwt_decode token) as [err|payload];
      [intros H; injection H as <- <-; split; [reflexivity|now left]|].
    destruct (py_int int_of_str (dict_get payload "sub")) as [uid|] eqn:Ei;
      [|intros H; injection H as <- <-; split; [reflexivity|now left]].
    session_unfold.
    destruct (get_user d uid); [discriminate|].
    destruct (in_int64 uid) eqn:R; simpl; intros H; injection H as <- <-.
    + split; [reflexivity|now left].
    + split; [reflexivity|]. right. split; [reflexivity|].
      exists payload, uid. auto.
Qed.

Lemma bad_token_is_unauthenticated_witness :
  run (get_user_from_token sample_decode sample_int "expired") store_groceries
  = (inl (HTTPException 401 "Invalid token"), store_groceries).
Proof.
  apply (proj1 (bad_token_is_unauthenticated sample_decode sample_int
                  "expired" store_groceries) DecodeError).
  reflexivity.
Defined.

(** C8, as stated, fails on what the caller sees: the token of a User that
    is gone and a token that does not decode both get the status 401, but
    not the same answer, the detail tells them apart; and a token whose
    subject is 2^63, the id of no User, does not get a 401 at all, the
    lookup ends in a 500. *)
Lemma stale_token_is_told_apart :
  get_user store_groceries 9 = None
  /\ run (get_user_from_token sample_decode sample_int "token-of-9")
       store_groceries
     = (inl (HTTPException 401 "User not found"), store_groceries)
  /\ run (get_user_from_token sample_decode sample_int "garbage")
       store_groceries
     = (inl (HTTPException 401 "Invalid token"), store_groceries)
  /\ run (get_user_from_token sample_decode sample_int "token-of-9")
       store_groceries
     <> run (get_user_from_token sample_decode sample_int "garbage")
          store_groceries
  /\ run (get_user_from_token sample_decode_huge sample_int "token-of-2^63")
       store_groceries
     = (inl OverflowError, store_groceries)
  /\ status_of OverflowError <> 401.
Proof.
  split; [reflexivity|]. split; [reflexivity|]. split; [reflexivity|].
  split; [vm_compute; discriminate|]. split; [reflexivity|].
  vm_compute. discriminate.
Qed.

(** * Properties of the rest of the API *)

(** ** The handlers as functions of the store *)

Lemma get_category_added (us : list User.t) (cs : list Category.t)
    (ts : list Transaction.t) (n : string) (o : Z) :
  let i := next_rowid (map Category.id cs) in
  get_category (mkDb us (cs ++ [Category.mk i n o]) ts) i
  = Some (Category.mk i n o).
Proof.
  intros i. unfold get_category. simpl. apply find_app_fresh.
  - intros y Hy. apply Z.eqb_neq.
    pose proof (next_rowid_above (map Category.id cs) (Category.id y)
                  (in_map Category.id cs y Hy)).
    subst i. lia.
  - apply Z.eqb_refl.
Qed.

Lemma create_category_run (payload : CategoryIn.t) (P : User.t) (d : Db) :
  let c := Category.mk (next_rowid (map Category.id (categories d)))
             (CategoryIn.name payload) (User.id P) in
  run (create_category payload P) d
  = (inr c, mkDb (users d) (categories d ++ [c]) (transactions d)).
Proof.
  intros c. unfold create_category. session_unfold.
  rewrite get_category_added. reflexivity.
Qed.

Lemma update_category_run (cid : Z) (payload : CategoryIn.t) (P : User.t)
    (d : Db) :
  run (update_category cid payload P) d
  = match get_category d cid with
    | None => (inl (missing cid not_found), d)
    | Some c =>
        if negb (Category.owner_id c =? User.id P)
        then (inl not_found, d)
        else
          let c' := Category.mk (Category.id c) (CategoryIn.name payload)
                      (Category.owner_id c) in
          (inr c',
           mkDb (users d)
             (map (fun r => if Category.id r =? Category.id c then c' else r)
                (categories d))
             (transactions d))
    end.
Proof.
  unfold update_category, missing. session_unfold.
  destruct (get_category d cid) as [c|] eqn:G;
    [|destruct (in_int64 cid); reflexivity].
  simpl. destruct (negb _); [reflexivity|]. simpl.
  unfold get_category in *. simpl.
  destruct (get_category_some d cid c G) as [_ Hid].
  rewrite Hid in *.
  rewrite (find_replace Category.id cid c
             (Category.mk cid (CategoryIn.name payload) (Category.owner_id c))
             (categories d) eq_refl G).
  reflexivity.
Qed.

Lemma delete_category_run (cid : Z) (P : User.t) (d : Db) :
  run (delete_category cid P) d
  = match get_category d cid with
    | None => (inl (missing cid not_found), d)
    | Some c =>
        if negb (Category.owner_id c =? User.id P)
        then (inl not_found, d)
        else
          (inr tt,
           mkDb (users d)
             (filter (fun r => negb (Category.id r =? Category.id c))
                (categories d))
             (map (detach (Category.id c)) (transactions d)))
    end.
Proof.
  unfold delete_category, missing. session_unfold.
  destruct (get_category d cid) as [c|];
    [|destruct (in_int64 cid); reflexivity].
  simpl. destruct (negb _); reflexivity.
Qed.

Lemma register_run (hash_password : string -> string) (utcnow : Z)
    (user : UserCreate.t) (d : Db) :
  run (register hash_password utcnow user) d
  = match find (fun u => String.eqb (User.email u) (UserCreate.email user))
            (users d) with
    | Some _ => (inl (HTTPException 400 "Email already registered"), d)
    | None =>
        (inr (User.mk (next_rowid (map User.id (users d)))
                (UserCreate.email user)
                (hash_password (UserCreate.password user)) utcnow),
         registered d (UserCreate.email user)
           (hash_password (UserCreate.password user)) utcnow)
    end.
Proof.
  unfold register. session_unfold.
  destruct (find _ (users d)) as [x|]; simpl; [reflexivity|].
  rewrite get_user_added. simpl.
  set (i := next_rowid (map Category.id (categories d))).
  set (uid := next_rowid (map User.id (users d))).
  rewrite (next_rowid_add_category (categories d) i "General" uid eq_refl).
  rewrite (next_rowid_add_category
             (categories d ++ [Category.mk i "General" uid]) (i + 1)
             "Food" uid)
    by (symmetry; apply next_rowid_add_category; reflexivity).
  replace (i + 1 + 1) with (i + 2) by lia.
  rewrite <- !app_assoc. reflexivity.
Qed.

Lemma list_categories_run (P : User.t) (d : Db) :
  run (list_categories P) d
  = (inr (order_by_name
            (filter (fun c => Category.owner_id c =? User.id P)
               (categories d))), d).
Proof. reflexivity. Qed.

(** ** The token dependency in front of a handler *)

(** The dependency reads the store; the user it returns is a row of the
    store. *)
Lemma get_user_from_token_reads
    (jwt_decode : string -> jwt_error + list (string * pyval))
    (int_of_str : string -> option Z) (token : string) (s : Session) :
  (exists e, get_user_from_token jwt_decode int_of_str token s = (inl e, s)
             /\ (status_of e = 401 \/ status_of e = 500))
  \/ (exists P, get_user_from_token jwt_decode int_of_str token s = (inr P, s)
                /\ In P (users (pending s))).
Proof.
  unfold get_user_from_token.
  destruct (jwt_decode token) as [err|payload];
    [left; eexists; split; [reflexivity|now left]|].
  destruct (py_int int_of_str (dict_get payload "sub")) as [uid|];
    [|left; eexists; split; [reflexivity|now left]].
  session_unfold.
  destruct (get_user (pending s) uid) as [P|] eqn:G.
  - right. exists P. split; [reflexivity|].
    unfold get_user in G. apply find_some in G. tauto.
  - left. destruct (in_int64 uid); eexists; split;
      try reflexivity; [now left|now right].
Qed.

Lemma authenticated_run {A}
    (jwt_decode : string -> jwt_error + list (string * pyval))
    (int_of_str : string -> option Z) (token : string)
    (handler : User.t -> M A) (d : Db) :
  (exists e, run (authenticated jwt_decode int_of_str token handler) d
             = (inl e, d) /\ (status_of e = 401 \/ status_of e = 500))
  \/ (exists P, In P (users d)
                /\ run (authenticated jwt_decode int_of_str token handler) d
                   = run (handler P) d).
Proof.
  unfold authenticated, run, bind.
  destruct (get_user_from_token_reads jwt_decode int_of_str token
              (mkSession d d)) as [[e [-> He]]|[P [-> HP]]].
  - left. exists e. split; [reflexivity|exact He].
  - right. exists P. split; [exact HP|reflexivity].
Qed.

(** ** What a request does to the store *)

(** Each route that writes makes one [change] on behalf of its principal,
    or none. *)
Lemma post_categories_change (payload : CategoryIn.t) (P : User.t) (d : Db) :
  change (User.id P) d (snd (run (post_categories payload P) d)).
Proof.
  unfold post_categories, with_CategoryIn.
  destruct (CategoryIn.valid payload) eqn:V; [|apply change_nothing].
  rewrite create_category_run. simpl.
  apply change_post_category. now destruct payload.
Qed.

Lemma put_categories_change (cid : Z) (payload : CategoryIn.t) (P : User.t)
    (d : Db) :
  change (User.id P) d (snd (run (put_categories cid payload P) d)).
Proof.
  unfold put_categories, with_CategoryIn.
  destruct (CategoryIn.valid payload) eqn:V; [|apply change_nothing].
  rewrite update_category_run.
  destruct (get_category d cid) as [c|] eqn:G; [|apply change_nothing].
  destruct (Category.owner_id c =? User.id P) eqn:O; [|apply change_nothing].
  apply Z.eqb_eq in O. simpl.
  destruct (get_category_some _ _ _ G) as [_ Hid].
  rewrite O. apply change_put_category.
  - now rewrite Hid.
  - exact O.
  - now destruct payload.
Qed.

Lemma delete_category_change (cid : Z) (P : User.t) (d : Db) :
  change (User.id P) d (snd (run (delete_category cid P) d)).
Proof.
  rewrite delete_category_run.
  destruct (get_category d cid) as [c|] eqn:G; [|apply change_nothing].
  destruct (Category.owner_id c =? User.id P) eqn:O; [|apply change_nothing].
  apply Z.eqb_eq in O. simpl.
  destruct (get_category_some _ _ _ G) as [_ Hid].
  apply change_delete_category; [now rewrite Hid|exact O].
Qed.

Lemma post_transactions_change (payload : TxIn.t) (P : User.t) (d : Db) :
  change (User.id P) d (snd (run (post_transactions payload P) d)).
Proof.
  unfold post_transactions, with_TxIn.
  destruct (TxIn.valid payload) eqn:V;
    [|destruct (negb _ && negb _); apply change_nothing].
  destruct (run (create_transaction payload P) d) as [[e|out] d'] eqn:R.
  - apply create_transaction_inl in R. destruct R as [_ ->].
    apply change_nothing.
  - apply create_transaction_inr in R. destruct R as [-> [_ [_ C]]].
    simpl. now apply change_post_transaction.
Qed.

Lemma put_transactions_change (tx_id : Z) (payload : TxIn.t) (P : User.t)
    (d : Db) :
  change (User.id P) d (snd (run (put_transactions tx_id payload P) d)).
Proof.
  unfold put_transactions, with_TxIn.
  destruct (TxIn.valid payload) eqn:V;
    [|destruct (negb _ && negb _); apply change_nothing].
  destruct (run (update_transaction tx_id payload P) d) as [[e|out] d']
    eqn:R.
  - apply update_transaction_inl in R. destruct R as [_ ->].
    apply change_nothing.
  - apply update_transaction_inr in R.
    destruct R as [tx [G [O [-> [_ [_ C]]]]]].
    destruct (get_transaction_some _ _ _ G) as [_ Hid]. subst tx_id.
    simpl. now apply change_put_transaction.
Qed.

(** A request leaves the store as it is, or makes one change on behalf of a
    User of the store, or registers a User whose email was free. *)
Lemma serve_cases
    (jwt_decode : string -> jwt_error + list (string * pyval))
    (int_of_str : string -> option Z)
    (hash_password : string -> string) (utcnow : Z)
    (r : request) (d : Db) :
  (exists uid,
      In uid (map User.id (users d))
      /\ change uid d (serve jwt_decode int_of_str hash_password utcnow r d))
  \/ (serve jwt_decode int_of_str hash_password utcnow r d = d)
  \/ (exists user,
        r = Register user
        /\ (forall u, In u (users d) ->
                      User.email u <> UserCreate.email user)
        /\ serve jwt_decode int_of_str hash_password utcnow r d
           = registered d (UserCreate.email user)
               (hash_password (UserCreate.password user)) utcnow).
Proof.
  assert (A : forall B token (handler : User.t -> M B),
             (forall P, change (User.id P) d (snd (run (handler P) d))) ->
             (exists uid,
                 In uid (map User.id (users d))
                 /\ change uid d
                      (snd (run (authenticated jwt_decode int_of_str token
                                   handler) d)))
             \/ snd (run (authenticated jwt_decode int_of_str token handler)
                       d) = d).
  { intros B token handler H.
    destruct (authenticated_run jwt_decode int_of_str token handler d)
      as [[e [-> _]]|[P [HP ->]]]; [right; reflexivity|].
    left. exists (User.id P). split; [now apply in_map|apply H]. }
  destruct r as [user|token|token payload|token cid payload|token cid
                 |token q ty cat st en limit offset|token payload
                 |token tx_id payload]; simpl.
  - rewrite register_run.
    destruct (find _ (users d)) as [x|] eqn:F; [right; left; reflexivity|].
    right. right. exists user. split; [reflexivity|].
    split; [|reflexivity].
    intros u Hu E. apply (find_none _ _ F) in Hu.
    apply String.eqb_neq in Hu. contradiction.
  - right. left.
    destruct (authenticated_run jwt_decode int_of_str token list_categories d)
      as [[e [-> _]]|[P [_ ->]]]; reflexivity.
  - destruct (A _ token (post_categories payload)
                (fun P => post_categories_change payload P d)); tauto.
  - destruct (A _ token (put_categories cid payload)
                (fun P => put_categories_change cid payload P d)); tauto.
  - destruct (A _ token (delete_category cid)
                (fun P => delete_category_change cid P d)); tauto.
  - right. left.
    destruct (authenticated_run jwt_decode int_of_str token
                (fun P => list_transactions P q ty cat st en limit offset) d)
      as [[e [-> _]]|[P [_ ->]]]; [reflexivity|].
    now rewrite list_transactions_run.
  - destruct (A _ token (post_transactions payload)
                (fun P => post_transactions_change payload P d)); tauto.
  - destruct (A _ token (put_transactions tx_id payload)
                (fun P => put_transactions_change tx_id payload P d)); tauto.
Qed.

(** ** Keys stay unique and positive *)

Lemma next_rowid_fresh (ids : list Z) : ~ In (next_rowid ids) ids.
Proof. intros H. apply next_rowid_above in H. lia. Qed.

Lemma next_rowid_pos (ids : list Z) :
  (forall i, In i ids -> 0 < i) -> 0 < next_rowid ids.
Proof.
  destruct ids as [|i rest]; simpl; intros H; [lia|].
  pose proof (fold_max_ge_init i rest).
  pose proof (H i (or_introl eq_refl)). lia.
Qed.

Lemma NoDup_snoc {A} (l : list A) (x : A) :
  NoDup l -> ~ In x l -> NoDup (l ++ [x]).
Proof.
  induction l as [|y l IH]; simpl; intros Hn Hx.
  - constructor; [tauto|constructor].
  - inversion Hn as [|? ? Hy Hl]; subst. constructor.
    + rewrite in_app_iff. simpl. intuition congruence.
    + apply IH; tauto.
Qed.

Lemma map_key_replace {A} (key : A -> Z) (i : Z) (r' : A) (l : list A) :
  key r' = i ->
  map key (map (fun x => if key x =? i then r' else x) l) = map key l.
Proof.
  intros Hk. induction l as [|y l IH]; simpl; [reflexivity|].
  rewrite IH. destruct (key y =? i) eqn:E; [|reflexivity].
  apply Z.eqb_eq in E. congruence.
Qed.

Lemma in_map_filter {A B} (f : A -> B) (g : A -> bool) (l : list A) (b : B) :
  In b (map f (filter g l)) -> In b (map f l).
Proof.
  rewrite !in_map_iff. intros [x [Hx Hin]]. apply filter_In in Hin.
  exists x. tauto.
Qed.

Lemma NoDup_map_filter {A B} (f : A -> B) (g : A -> bool) (l : list A) :
  NoDup (map f l) -> NoDup (map f (filter g l)).
Proof.
  induction l as [|x l IH]; simpl; intros H; [constructor|].
  inversion H as [|? ? Hx Hl]; subst.
  destruct (g x); simpl; [|now apply IH].
  constructor; [|now apply IH].
  intros Hin. apply Hx. eapply in_map_filter. exact Hin.
Qed.

Lemma detach_id (cid : Z) (t : Transaction.t) :
  Transaction.id (detach cid t) = Transaction.id t
  /\ Transaction.owner_id (detach cid t) = Transaction.owner_id t
  /\ Transaction.amount (detach cid t) = Transaction.amount t
  /\ Transaction.type (detach cid t) = Transaction.type t.
Proof.
  unfold detach. destruct (Transaction.category_id t) as [c|];
    [destruct (c =? cid)|]; repeat split; reflexivity.
Qed.

Lemma map_id_detach (cid : Z) (l : list Transaction.t) :
  map Transaction.id (map (detach cid) l) = map Transaction.id l.
Proof.
  rewrite map_map. apply map_ext. intros t. apply detach_id.
Qed.

Lemma keys_ok_change (uid : Z) (d d' : Db) :
  change uid d d' -> keys_ok d -> keys_ok d'.
Proof.
  intros C (Ku & Kc & Kt & Pu & Pc & Pt & Ke).
  destruct C as [|name V|c name G O V|c G O|payload V C|tx payload G O V C];
    unfold keys_ok; simpl.
  - repeat split; assumption.
  - rewrite map_app. simpl. repeat split; try assumption.
    + apply NoDup_snoc; [exact Kc|apply next_rowid_fresh].
    + intros i Hi. apply in_app_iff in Hi. destruct Hi as [Hi|[<-|[]]];
        [now apply Pc|now apply next_rowid_pos].
  - rewrite (map_key_replace Category.id (Category.id c)) by reflexivity.
    repeat split; assumption.
  - rewrite map_id_detach. repeat split; try assumption.
    + now apply NoDup_map_filter.
    + intros i Hi. apply Pc. eapply in_map_filter. exact Hi.
  - rewrite map_app. simpl. repeat split; try assumption.
    + apply NoDup_snoc; [exact Kt|apply next_rowid_fresh].
    + intros i Hi. apply in_app_iff in Hi. destruct Hi as [Hi|[<-|[]]];
        [now apply Pt|now apply next_rowid_pos].
  - rewrite (map_key_replace Transaction.id (Transaction.id tx))
      by reflexivity.
    repeat split; assumption.
Qed.

Lemma keys_ok_registered (d : Db) (e h : string) (now : Z) :
  (forall u, In u (users d) -> User.email u <> e) ->
  keys_ok d -> keys_ok (registered d e h now).
Proof.
  intros Hfree (Ku & Kc & Kt & Pu & Pc & Pt & Ke).
  unfold keys_ok, registered. simpl. rewrite !map_app. simpl.
  set (i := next_rowid (map Category.id (categories d))).
  assert (Hi : forall x, In x (map Category.id (categories d)) -> x < i)
    by (intros x Hx; now apply next_rowid_above).
  assert (Hp : 0 < i) by now apply next_rowid_pos.
  repeat split; try assumption.
  - apply NoDup_snoc; [exact Ku|apply next_rowid_fresh].
  - apply NoDup_app; [exact Kc| |].
    + repeat constructor; simpl; lia.
    + intros x Hx [<-|[<-|[<-|[]]]]; apply Hi in Hx; lia.
  - intros x Hx. apply in_app_iff in Hx. destruct Hx as [Hx|[<-|[]]];
      [now apply Pu|now apply next_rowid_pos].
  - intros x Hx. apply in_app_iff in Hx.
    destruct Hx as [Hx|[<-|[<-|[<-|[]]]]]; [now apply Pc|lia|lia|lia].
  - apply NoDup_snoc; [exact Ke|].
    intros Hin. apply in_map_iff in Hin. destruct Hin as [u [Eu Hu]].
    now apply (Hfree u Hu).
Qed.

(** ** Owners stay Users of the store *)

Lemma in_replace {A} (f : A -> bool) (r' : A) (l : list A) (x : A) :
  In x (map (fun r => if f r then r' else r) l) -> x = r' \/ In x l.
Proof.
  rewrite in_map_iff. intros [y [Hy Hin]].
  destruct (f y); subst; auto.
Qed.

Lemma owners_ok_change (uid : Z) (d d' : Db) :
  change uid d d' ->
  In uid (map User.id (users d)) -> owners_ok d -> owners_ok d'.
Proof.
  intros C Hu [Oc Ot].
  destruct C as [|name V|c name G O V|c G O|payload V C|tx payload G O V C];
    unfold owners_ok; simpl.
  - split; assumption.
  - split; [|exact Ot]. intros c Hc. apply in_app_iff in Hc.
    destruct Hc as [Hc|[<-|[]]]; [now apply Oc|exact Hu].
  - split; [|exact Ot]. intros x Hx. apply in_replace in Hx.
    destruct Hx as [->|Hx]; [exact Hu|now apply Oc].
  - split.
    + intros x Hx. apply filter_In in Hx. now apply Oc.
    + intros t Ht. apply in_map_iff in Ht. destruct Ht as [t0 [<- Ht0]].
      destruct (detach_id (Category.id c) t0) as [_ [-> _]]. now apply Ot.
  - split; [exact Oc|]. intros t Ht. apply in_app_iff in Ht.
    destruct Ht as [Ht|[<-|[]]]; [now apply Ot|exact Hu].
  - split; [exact Oc|]. intros t Ht. apply in_replace in Ht.
    destruct Ht as [->|Ht]; [simpl; now rewrite O|now apply Ot].
Qed.

Lemma owners_ok_registered (d : Db) (e h : string) (now : Z) :
  owners_ok d -> owners_ok (registered d e h now).
Proof.
  intros [Oc Ot]. unfold owners_ok, registered. simpl. rewrite map_app.
  split.
  - intros c Hc. apply in_app_iff. apply in_app_iff in Hc.
    destruct Hc as [Hc|[<-|[<-|[<-|[]]]]];
      [left; now apply Oc|right; now left..].
  - intros t Ht. apply in_app_iff. left. now apply Ot.
Qed.

(** ** Category references stay with the owner *)

Lemma find_app_some {A} (f : A -> bool) (l l' : list A) (x : A) :
  find f l = Some x -> find f (l ++ l') = Some x.
Proof.
  induction l as [|y l IH]; simpl; [discriminate|].
  destruct (f y); [trivial|exact IH].
Qed.

(** A lookup of another key does not see a replacement. *)
Lemma find_replace_other {A} (key : A -> Z) (i k : Z) (r' : A) (l : list A) :
  key r' = i -> k <> i ->
  find (fun x => key x =? k) (map (fun x => if key x =? i then r' else x) l)
  = find (fun x => key x =? k) l.
Proof.
  intros Hk Hne. induction l as [|y l IH]; simpl; [reflexivity|].
  destruct (key y =? i) eqn:E.
  - apply Z.eqb_eq in E.
    replace (key r' =? k) with false by (symmetry; apply Z.eqb_neq; lia).
    replace (key y =? k) with false by (symmetry; apply Z.eqb_neq; lia).
    exact IH.
  - destruct (key y =? k); [reflexivity|exact IH].
Qed.

(** A lookup of another key does not see a deletion. *)
Lemma find_filter_other (cid k : Z) (l : list Category.t) :
  k <> cid ->
  find (fun x => Category.id x =? k)
    (filter (fun r => negb (Category.id r =? cid)) l)
  = find (fun x => Category.id x =? k) l.
Proof.
  intros Hne. induction l as [|y l IH]; simpl; [reflexivity|].
  destruct (Category.id y =? cid) eqn:E; simpl.
  - apply Z.eqb_eq in E.
    replace (Category.id y =? k) with false
      by (symmetry; apply Z.eqb_neq; lia).
    exact IH.
  - destruct (Category.id y =? k); [reflexivity|exact IH].
Qed.

Lemma category_owned_put (d : Db) (c : Category.t) (name : string)
    (k o : Z) (ts : list Transaction.t) :
  get_category d (Category.id c) = Some c ->
  category_owned d k o ->
  category_owned
    (mkDb (users d)
       (map (fun r =>
               if Category.id r =? Category.id c
               then Category.mk (Category.id c) name (Category.owner_id c)
               else r)
          (categories d)) ts) k o.
Proof.
  intros G [x [Gx Ox]]. unfold category_owned, get_category in *. simpl.
  destruct (Z.eq_dec k (Category.id c)) as [->|Hne].
  - rewrite (find_replace Category.id (Category.id c) c
               (Category.mk (Category.id c) name (Category.owner_id c))
               (categories d) eq_refl G).
    eexists. split; [reflexivity|]. simpl. congruence.
  - rewrite find_replace_other by (trivial; exact Hne).
    exists x. tauto.
Qed.

Lemma refs_ok_change (uid : Z) (d d' : Db) :
  change uid d d' -> refs_ok d -> refs_ok d'.
Proof.
  intros C R.
  destruct C as [|name V|c name G O V|c G O|payload V C|tx payload G O V C];
    unfold refs_ok; simpl.
  - exact R.
  - intros t Ht. specialize (R t Ht).
    destruct (Transaction.category_id t) as [k|]; [|exact I].
    destruct R as [R|[x [Gx Ox]]]; [now left|right].
    exists x. split; [|exact Ox].
    unfold get_category in *. simpl. now apply find_app_some.
  - intros t Ht. specialize (R t Ht).
    destruct (Transaction.category_id t) as [k|]; [|exact I].
    destruct R as [R|R]; [now left|right].
    rewrite <- O. now apply category_owned_put.
  - intros t' Ht. apply in_map_iff in Ht. destruct Ht as [t [<- Ht]].
    specialize (R t Ht). unfold detach.
    destruct (Transaction.category_id t) as [k|] eqn:Ek; [|now rewrite Ek].
    destruct (k =? Category.id c) eqn:E; [exact I|].
    rewrite Ek. destruct R as [R|[x [Gx Ox]]]; [now left|right].
    exists x. split; [|exact Ox].
    unfold get_category in *. simpl.
    rewrite find_filter_other; [exact Gx|now apply Z.eqb_neq].
  - intros t Ht. apply in_app_iff in Ht. destruct Ht as [Ht|[<-|[]]].
    + exact (R t Ht).
    + simpl. exact C.
  - intros t Ht. apply in_replace in Ht. destruct Ht as [->|Ht].
    + simpl. rewrite O. exact C.
    + exact (R t Ht).
Qed.

Lemma refs_ok_registered (d : Db) (e h : string) (now : Z) :
  refs_ok d -> refs_ok (registered d e h now).
Proof.
  intros R t Ht. specialize (R t Ht).
  destruct (Transaction.category_id t) as [k|]; [|exact I].
  destruct R as [R|[x [Gx Ox]]]; [now left|right].
  exists x. split; [|exact Ox].
  unfold get_category, registered in *. simpl. now apply find_app_some.
Qed.

(** ** Stored fields stay valid *)

Lemma fields_ok_change (uid : Z) (d d' : Db) :
  change uid d d' -> fields_ok d -> fields_ok d'.
Proof.
  intros C [Fc Ft].
  destruct C as [|name V|c name G O V|c G O|payload V C|tx payload G O V C];
    unfold fields_ok; simpl.
  - split; assumption.
  - split; [|exact Ft]. intros x Hx. apply in_app_iff in Hx.
    destruct Hx as [Hx|[<-|[]]]; [now apply Fc|exact V].
  - split; [|exact Ft]. intros x Hx. apply in_replace in Hx.
    destruct Hx as [->|Hx]; [exact V|now apply Fc].
  - split.
    + intros x Hx. apply filter_In in Hx. now apply Fc.
    + intros t Ht. apply in_map_iff in Ht. destruct Ht as [t0 [<- Ht0]].
      destruct (detach_id (Category.id c) t0) as [_ [_ [-> ->]]].
      now apply Ft.
  - split; [exact Fc|]. intros t Ht. apply in_app_iff in Ht.
    destruct Ht as [Ht|[<-|[]]]; [now apply Ft|].
    unfold TxIn.valid in V. apply andb_true_iff in V. exact V.
  - split; [exact Fc|]. intros t Ht. apply in_replace in Ht.
    destruct Ht as [->|Ht]; [|now apply Ft].
    unfold TxIn.valid in V. apply andb_true_iff in V. exact V.
Qed.

Lemma fields_ok_registered (d : Db) (e h : string) (now : Z) :
  fields_ok d -> fields_ok (registered d e h now).
Proof.
  intros [Fc Ft]. unfold fields_ok, registered. simpl. split; [|exact Ft].
  intros c Hc. apply in_app_iff in Hc.
  destruct Hc as [Hc|[<-|[<-|[<-|[]]]]]; [now apply Fc|reflexivity..].
Qed.

(** ** Invariants of the store under requests *)

(** X1. Whatever the request, primary keys stay positive and unique within
    their table, and emails stay unique among Users. *)
Theorem serve_keeps_keys
    (jwt_decode : string -> jwt_error + list (string * pyval))
    (int_of_str : string -> option Z)
    (hash_password : string -> string) (utcnow : Z)
    (r : request) (d : Db) :
  keys_ok d -> keys_ok (serve jwt_decode int_of_str hash_password utcnow r d).
Proof.
  intros K.
  destruct (serve_cases jwt_decode int_of_str hash_password utcnow r d)
    as [[uid [_ C]]|[->|[user [_ [Hfree ->]]]]].
  - exact (keys_ok_change uid _ _ C K).
  - exact K.
  - now apply keys_ok_registered.
Qed.

(** X2. Whatever the request, every Category and every Transaction keeps an
    owner that is a User of the store. *)
Theorem serve_keeps_owners
    (jwt_decode : string -> jwt_error + list (string * pyval))
    (int_of_str : string -> option Z)
    (hash_password : string -> string) (utcnow : Z)
    (r : request) (d : Db) :
  owners_ok d ->
  owners_ok (serve jwt_decode int_of_str hash_password utcnow r d).
Proof.
  intros K.
  destruct (serve_cases jwt_decode int_of_str hash_password utcnow r d)
    as [[uid [Hu C]]|[->|[user [_ [Hfree ->]]]]].
  - exact (owners_ok_change uid _ _ C Hu K).
  - exact K.
  - now apply owners_ok_registered.
Qed.

(** X3. Whatever the request, the category reference of every Transaction
    stays NULL, 0, or the id of a Category of the Transaction's own owner:
    no request makes a Transaction point into another User's Categories. *)
Theorem serve_keeps_category_refs
    (jwt_decode : string -> jwt_error + list (string * pyval))
    (int_of_str : string -> option Z)
    (hash_password : string -> string) (utcnow : Z)
    (r : request) (d : Db) :
  refs_ok d -> refs_ok (serve jwt_decode int_of_str hash_password utcnow r d).
Proof.
  intros K.
  destruct (serve_cases jwt_decode int_of_str hash_password utcnow r d)
    as [[uid [_ C]]|[->|[user [_ [Hfree ->]]]]].
  - exact (refs_ok_change uid _ _ C K).
  - exact K.
  - now apply refs_ok_registered.
Qed.

(** X4. Whatever the request, every stored Category name has 1 to 100
    characters and every stored Transaction has an amount above zero and
    the kind "expense" or "income". *)
Theorem serve_keeps_fields
    (jwt_decode : string -> jwt_error + list (string * pyval))
    (int_of_str : string -> option Z)
    (hash_password : string -> string) (utcnow : Z)
    (r : request) (d : Db) :
  fields_ok d ->
  fields_ok (serve jwt_decode int_of_str hash_password utcnow r d).
Proof.
  intros K.
  destruct (serve_cases jwt_decode int_of_str hash_password utcnow r d)
    as [[uid [_ C]]|[->|[user [_ [Hfree ->]]]]].
  - exact (fields_ok_change uid _ _ C K).
  - exact K.
  - now apply fields_ok_registered.
Qed.

(** Proves the conditions of a store that is written out. *)
Ltac solve_store :=
  unfold store_ok, keys_ok, owners_ok, refs_ok, fields_ok; simpl;
  repeat match goal with
         | |- _ /\ _ => split
         | |- NoDup _ => constructor
         | |- forall _, _ => intro
         | |- ~ _ => intro
         | H : In _ _ |- _ => simpl in H
         | H : _ \/ _ |- _ => destruct H
         | H : False |- _ => destruct H
         | H : _ = _ |- _ => first [discriminate H | subst; simpl]
         | |- In _ _ => simpl; tauto
         | |- _ \/ category_owned _ _ _ =>
             right; eexists; split; reflexivity
         | |- _ => first [lia | reflexivity | exact I]
         end.

Lemma serve_keeps_keys_witness :
  keys_ok
    (serve sample_decode sample_int (fun pw => pw) 0
       (DeleteCategory "token-of-1" 2) store_groceries).
Proof.
  apply (serve_keeps_keys sample_decode sample_int (fun pw => pw) 0
           (DeleteCategory "token-of-1" 2) store_groceries).
  solve_store.
Defined.

Lemma serve_keeps_owners_witness :
  owners_ok
    (serve sample_decode sample_int (fun pw => pw) 0
       (PostCategory "token-of-1" (CategoryIn.mk "Rent")) store_groceries).
Proof.
  apply (serve_keeps_owners sample_decode sample_int (fun pw => pw) 0
           (PostCategory "token-of-1" (CategoryIn.mk "Rent"))
           store_groceries).
  solve_store.
Defined.

Lemma serve_keeps_category_refs_witness :
  refs_ok
    (serve sample_decode sample_int (fun pw => pw) 0
       (PutTransaction "token-of-1" 2 bakery_again) store_groceries).
Proof.
  apply (serve_keeps_category_refs sample_decode sample_int (fun pw => pw) 0
           (PutTransaction "token-of-1" 2 bakery_again) store_groceries).
  solve_store.
Defined.

Lemma serve_keeps_fields_witness :
  fields_ok
    (serve sample_decode sample_int (fun pw => pw) 0
       (PostCategory "token-of-1" (CategoryIn.mk euro_name)) store_groceries)
  /\ In (Category.mk 3 euro_name 1)
       (categories
          (serve sample_decode sample_int (fun pw => pw) 0
             (PostCategory "token-of-1" (CategoryIn.mk euro_name))
             store_groceries))
  /\ String.length euro_name = 102%nat.
Proof.
  split; [|split; [vm_compute; tauto|reflexivity]].
  apply (serve_keeps_fields sample_decode sample_int (fun pw => pw) 0
           (PostCategory "token-of-1" (CategoryIn.mk euro_name))
           store_groceries).
  solve_store.
Defined.

Lemma store_ok_serve
    (jwt_decode : string -> jwt_error + list (string * pyval))
    (int_of_str : string -> option Z)
    (hash_password : string -> string) (utcnow : Z)
    (r : request) (d : Db) :
  store_ok d ->
  store_ok (serve jwt_decode int_of_str hash_password utcnow r d).
Proof.
  intros (K & O & R & F).
  destruct (serve_cases jwt_decode int_of_str hash_password utcnow r d)
    as [[uid [Hu C]]|[->|[user [_ [Hfree ->]]]]].
  - split; [|split; [|split]].
    + exact (keys_ok_change uid _ _ C K).
    + exact (owners_ok_change uid _ _ C Hu O).
    + exact (refs_ok_change uid _ _ C R).
    + exact (fields_ok_change uid _ _ C F).
  - split; [|split; [|split]]; assumption.
  - split; [|split; [|split]].
    + now apply keys_ok_registered.
    + now apply owners_ok_registered.
    + now apply refs_ok_registered.
    + now apply fields_ok_registered.
Qed.

(** X5. Every store that a deployment reaches from the empty store, by any
    sequence of requests with any tokens and bodies, has positive unique
    keys and unique emails, owners that exist, category references that
    stay with the owner (or are NULL or 0), and valid names, amounts and
    kinds. *)
Theorem reachable_store_is_ok
    (jwt_decode : string -> jwt_error + list (string * pyval))
    (int_of_str : string -> option Z)
    (hash_password : string -> string) (utcnow : Z)
    (rs : list request) :
  store_ok (serve_all jwt_decode int_of_str hash_password utcnow rs empty_db).
Proof.
  assert (E : store_ok empty_db) by solve_store.
  revert E. generalize empty_db as d. unfold serve_all.
  induction rs as [|r rs IH]; intros d Hd; simpl; [exact Hd|].
  apply IH. now apply store_ok_serve.
Qed.

(** ** A principal's requests leave the rows of the others alone *)

Lemma unique_by_key {A} (key : A -> Z) (l : list A) (a b : A) :
  NoDup (map key l) -> In a l -> In b l -> key a = key b -> a = b.
Proof.
  induction l as [|x l IH]; simpl; [tauto|].
  intros N Ha Hb E. inversion N as [|? ? Hx Hl]; subst.
  destruct Ha as [->|Ha], Hb as [->|Hb]; trivial.
  - exfalso. apply Hx. rewrite E. now apply in_map.
  - exfalso. apply Hx. rewrite <- E. now apply in_map.
  - now apply IH.
Qed.

(** A filter does not see a rewriting of rows it rejects before and after. *)
Lemma filter_map_same {A} (g : A -> bool) (f : A -> A) (l : list A) :
  (forall x, In x l -> f x = x \/ (g x = false /\ g (f x) = false)) ->
  filter g (map f l) = filter g l.
Proof.
  induction l as [|x l IH]; simpl; intros H; [reflexivity|].
  rewrite IH by (intros y Hy; apply H; now right).
  destruct (H x (or_introl eq_refl)) as [->|[-> ->]]; reflexivity.
Qed.

Lemma filter_filter_same {A} (g h : A -> bool) (l : list A) :
  (forall x, In x l -> h x = false -> g x = false) ->
  filter g (filter h l) = filter g l.
Proof.
  induction l as [|x l IH]; simpl; intros H; [reflexivity|].
  rewrite <- IH by (intros y Hy; apply H; now right).
  destruct (h x) eqn:E; simpl; [reflexivity|].
  now rewrite (H x (or_introl eq_refl) E).
Qed.

Lemma change_leaves_others (uid : Z) (d d' : Db) :
  change uid d d' -> keys_ok d -> refs_ok d ->
  rows_of_others uid d' = rows_of_others uid d /\ users d' = users d.
Proof.
  intros C (Ku & Kc & Kt & Pu & Pc & Pt & Ke) R.
  destruct C as [|name V|c name G O V|c G O|payload V C|tx payload G O V C];
    unfold rows_of_others; simpl; (split; [|reflexivity]).
  - reflexivity.
  - rewrite filter_app. simpl. rewrite Z.eqb_refl. simpl.
    now rewrite app_nil_r.
  - f_equal. apply filter_map_same. intros x Hx.
    destruct (Category.id x =? Category.id c) eqn:E; [right|now left].
    apply Z.eqb_eq in E. destruct (get_category_some _ _ _ G) as [Hc _].
    rewrite (unique_by_key Category.id _ x c Kc Hx Hc E).
    simpl. rewrite O, Z.eqb_refl. split; reflexivity.
  - destruct (get_category_some _ _ _ G) as [Hc _]. f_equal.
    + apply filter_filter_same. intros x Hx E.
      apply negb_false_iff, Z.eqb_eq in E.
      rewrite (unique_by_key Category.id _ x c Kc Hx Hc E).
      now rewrite O, Z.eqb_refl.
    + apply filter_map_same. intros t Ht. unfold detach.
      destruct (Transaction.category_id t) as [k|] eqn:Ek; [|now left].
      destruct (k =? Category.id c) eqn:E; [right|now left].
      apply Z.eqb_eq in E. subst k. simpl.
      specialize (R t Ht). rewrite Ek in R.
      destruct R as [R|[x [Gx Ox]]].
      * exfalso. specialize (Pc (Category.id c) (in_map Category.id _ c Hc)).
        lia.
      * rewrite G in Gx. injection Gx as <-.
        rewrite <- Ox, O, Z.eqb_refl. split; reflexivity.
  - rewrite filter_app. simpl. rewrite Z.eqb_refl. simpl.
    now rewrite app_nil_r.
  - f_equal. apply filter_map_same. intros x Hx.
    destruct (Transaction.id x =? Transaction.id tx) eqn:E; [right|now left].
    apply Z.eqb_eq in E. destruct (get_transaction_some _ _ _ G) as [Ht _].
    rewrite (unique_by_key Transaction.id _ x tx Kt Hx Ht E).
    simpl. rewrite O, Z.eqb_refl. split; reflexivity.
Qed.

(** X6. In a store with unique positive keys and category references that
    stay with the owner, whatever a principal sends to the five routes that
    write, the Categories and the Transactions of every other principal are
    afterwards the rows they were, in the order they were, and the Users are
    untouched. *)
Theorem requests_leave_other_principals_rows
    (P : User.t) (d : Db) (cid tx_id : Z)
    (name : CategoryIn.t) (body : TxIn.t) :
  keys_ok d -> refs_ok d ->
  forall d',
    d' = snd (run (post_categories name P) d)
    \/ d' = snd (run (put_categories cid name P) d)
    \/ d' = snd (run (delete_category cid P) d)
    \/ d' = snd (run (post_transactions body P) d)
    \/ d' = snd (run (put_transactions tx_id body P) d) ->
    rows_of_others (User.id P) d' = rows_of_others (User.id P) d
    /\ users d' = users d.
Proof.
  intros K R d' H. apply change_leaves_others; [|exact K|exact R].
  destruct H as [->|[->|[->|[->| ->]]]].
  - apply post_categories_change.
  - apply put_categories_change.
  - apply delete_category_change.
  - apply post_transactions_change.
  - apply put_transactions_change.
Qed.

Lemma requests_leave_other_principals_rows_witness :
  rows_of_others 2 (snd (run (delete_category 1 bob) store_shared))
  = rows_of_others 2 store_shared
  /\ users (snd (run (delete_category 1 bob) store_shared))
     = users store_shared.
Proof.
  apply (requests_leave_other_principals_rows bob store_shared 1 0
           (CategoryIn.mk "x") groceries_bill);
    [solve_store|solve_store|].
  right. right. left. reflexivity.
Defined.

(** ** Registration and emails *)

Lemma find_exists {A} (f : A -> bool) (l : list A) (x : A) :
  In x l -> f x = true -> exists y, find f l = Some y.
Proof.
  intros Hin Hf. destruct (find f l) as [y|] eqn:E; [now exists y|].
  rewrite (find_none _ _ E x Hin) in Hf. discriminate.
Qed.

(** X7. Registering an email that a User of the store already has fails
    with the 400 "Email already registered" and changes nothing; so a second
    registration of the email of a successful one fails, whatever its
    password. *)
Theorem register_email_conflict
    (hash_password : string -> string) (utcnow : Z)
    (user : UserCreate.t) (d : Db) :
  ((exists u, In u (users d) /\ User.email u = UserCreate.email user) ->
   run (register hash_password utcnow user) d
   = (inl (HTTPException 400 "Email already registered"), d))
  /\ (forall u d',
        run (register hash_password utcnow user) d = (inr u, d') ->
        forall hash' now' password',
          run (register hash' now'
                 (UserCreate.mk (UserCreate.email user) password')) d'
          = (inl (HTTPException 400 "Email already registered"), d')).
Proof.
  split.
  - intros [u [Hu Eu]]. rewrite register_run.
    destruct (find_exists
                (fun x => String.eqb (User.email x) (UserCreate.email user))
                (users d) u Hu) as [y ->]; [now apply String.eqb_eq|].
    reflexivity.
  - intros u d' H hash' now' password'. rewrite register_run in H.
    destruct (find _ (users d)) as [x|]; [discriminate|].
    injection H as <- <-. rewrite register_run. simpl.
    set (u := User.mk _ _ _ _).
    destruct (find_exists
                (fun x => String.eqb (User.email x) (UserCreate.email user))
                (users d ++ [u]) u) as [y ->];
      [apply in_app_iff; right; now left|apply String.eqb_refl|reflexivity].
Qed.

Lemma register_email_conflict_witness :
  run (register (fun pw => pw) 5
         (UserCreate.mk "bob@example.com" "secret")) store_groceries
  = (inl (HTTPException 400 "Email already registered"), store_groceries).
Proof.
  apply (proj1 (register_email_conflict (fun pw => pw) 5
                  (UserCreate.mk "bob@example.com" "secret")
                  store_groceries)).
  exists bob. split; [simpl; tauto|reflexivity].
Defined.

(** X8. Registering an email that no User of the store has succeeds: the
    new User gets an id that no User had, carries the email and the hash of
    the password, not the password, and is the row that a lookup of that id
    returns afterwards; the Users that were there stay. *)
Theorem register_free_email_succeeds
    (hash_password : string -> string) (utcnow : Z)
    (user : UserCreate.t) (d : Db) :
  (forall u, In u (users d) -> User.email u <> UserCreate.email user) ->
  exists u d',
    run (register hash_password utcnow user) d = (inr u, d')
    /\ ~ In (User.id u) (map User.id (users d))
    /\ User.email u = UserCreate.email user
    /\ User.password_hash u = hash_password (UserCreate.password user)
    /\ get_user d' (User.id u) = Some u
    /\ users d' = (users d ++ [u])%list.
Proof.
  intros Hfree. rewrite register_run.
  destruct (find _ (users d)) as [x|] eqn:F.
  - exfalso. apply find_some in F. destruct F as [Hx Ex].
    apply String.eqb_eq in Ex. exact (Hfree x Hx Ex).
  - eexists. eexists. split; [reflexivity|]. simpl.
    split; [apply next_rowid_fresh|].
    split; [reflexivity|]. split; [reflexivity|].
    split; [|reflexivity]. apply get_user_added.
Qed.

Lemma register_free_email_succeeds_witness :
  exists u d',
    run (register (fun pw => String.append "hash:" pw) 5
           (UserCreate.mk "carol@example.com" "secret")) store_groceries
    = (inr u, d')
    /\ User.id u = 3
    /\ User.password_hash u = "hash:secret"
    /\ get_user d' 3 = Some u.
Proof.
  destruct (register_free_email_succeeds
              (fun pw => String.append "hash:" pw) 5
              (UserCreate.mk "carol@example.com" "secret") store_groceries)
    as [u [d' [Hrun [_ [_ [Hh [Hg _]]]]]]].
  - intros x [<-|[<-|[]]]; discriminate.
  - exists u, d'. split; [exact Hrun|].
    assert (E : User.id u = 3)
      by (vm_compute in Hrun; injection Hrun as <- _; reflexivity).
    split; [exact E|]. split; [exact Hh|]. rewrite <- E. exact Hg.
Defined.

(** ** Login *)

(** X9. A login never writes to the store.  It fails in one way only, the
    400 "Incorrect email or password", and gives that same answer for an
    email that no User has and for a password that does not verify; when it
    succeeds, the token type is "bearer". *)
Theorem login_failure_is_uniform
    (verify_password : string -> string -> bool)
    (jwt_encode : list (string * pyval) -> string) (utcnow minutes : Z)
    (username password : string) (d : Db) :
  (forall r d',
      run (login verify_password jwt_encode utcnow minutes username password)
        d = (r, d') ->
      d' = d
      /\ match r with
         | inl e => e = HTTPException 400 "Incorrect email or password"
         | inr tok => Token.token_type tok = "bearer"
         end)
  /\ ((forall u, In u (users d) -> User.email u <> username) ->
      run (login verify_password jwt_encode utcnow minutes username password)
        d = (inl (HTTPException 400 "Incorrect email or password"), d))
  /\ (forall u,
        In u (users d) ->
        (forall x, In x (users d) -> User.email x = username -> x = u) ->
        User.email u = username ->
        verify_password password (User.password_hash u) = false ->
        run (login verify_password jwt_encode utcnow minutes username
               password) d
        = (inl (HTTPException 400 "Incorrect email or password"), d)).
Proof.
  unfold login. session_unfold. split; [|split].
  - intros r d'. destruct (find _ (users d)) as [u|].
    + destruct (verify_password password (User.password_hash u));
        simpl; intros H; injection H as <- <-; split; reflexivity.
    + intros H; injection H as <- <-; split; reflexivity.
  - intros Hfree. destruct (find _ (users d)) as [u|] eqn:F; [|reflexivity].
    exfalso. apply find_some in F. destruct F as [Hu Eu].
    apply String.eqb_eq in Eu. exact (Hfree u Hu Eu).
  - intros u Hu Huniq Eu Hv.
    destruct (find_exists (fun x => String.eqb (User.email x) username)
                (users d) u Hu) as [y Fy]; [now apply String.eqb_eq|].
    rewrite Fy. apply find_some in Fy. destruct Fy as [Hy Ey].
    apply String.eqb_eq in Ey. rewrite (Huniq y Hy Ey), Hv. reflexivity.
Qed.

Lemma login_failure_is_uniform_witness :
  run (login sample_verify sample_encode 0 120 "nobody@example.com" "h1")
    store_groceries
  = (inl (HTTPException 400 "Incorrect email or password"), store_groceries)
  /\ run (login sample_verify sample_encode 0 120 "alice@example.com" "wrong")
       store_groceries
     = (inl (HTTPException 400 "Incorrect email or password"),
        store_groceries).
Proof.
  split.
  - apply (proj1 (proj2 (login_failure_is_uniform sample_verify sample_encode
                           0 120 "nobody@example.com" "h1" store_groceries))).
    intros u [<-|[<-|[]]]; discriminate.
  - apply (proj2 (proj2 (login_failure_is_uniform sample_verify sample_encode
                           0 120 "alice@example.com" "wrong"
                           store_groceries)) alice).
    + simpl. tauto.
    + intros x [<-|[<-|[]]]; [reflexivity|discriminate].
    + reflexivity.
    + reflexivity.
Defined.

(** The claims of a token issued for a subject. *)
Lemma create_access_token_sub
    (jwt_encode : list (string * pyval) -> string) (utcnow minutes : Z)
    (v : pyval) :
  create_access_token jwt_encode utcnow [("sub", v)] minutes
  = jwt_encode [("sub", v); ("exp", PyInt (utcnow + 60 * minutes))].
Proof. reflexivity. Qed.

Lemma unique_by_email (l : list User.t) (a b : User.t) :
  NoDup (map User.email l) -> In a l -> In b l ->
  User.email a = User.email b -> a = b.
Proof.
  induction l as [|x l IH]; simpl; [tauto|].
  intros N Ha Hb E. inversion N as [|? ? Hx Hl]; subst.
  destruct Ha as [->|Ha], Hb as [->|Hb]; trivial.
  - exfalso. apply Hx. rewrite E. now apply in_map.
  - exfalso. apply Hx. rewrite <- E. now apply in_map.
  - now apply IH.
Qed.

Lemma get_user_unique (d : Db) (u : User.t) :
  NoDup (map User.id (users d)) -> In u (users d) ->
  get_user d (User.id u) = Some u.
Proof.
  intros N Hu. unfold get_user.
  destruct (find_exists (fun x => User.id x =? User.id u) (users d) u Hu)
    as [y Fy]; [apply Z.eqb_refl|].
  rewrite Fy. apply find_some in Fy. destruct Fy as [Hy Ey].
  apply Z.eqb_eq in Ey. f_equal.
  exact (unique_by_key User.id _ y u N Hy Hu Ey).
Qed.

(** X10. In a store with unique keys, when the email is that of a User whose
    password verifies, the login succeeds; and if the decoder gives back the
    claims the token was issued with and [int] reads the subject back, the
    token dependency resolves that token to that very User. *)
Theorem login_token_authenticates
    (verify_password : string -> string -> bool)
    (jwt_encode : list (string * pyval) -> string) (utcnow minutes : Z)
    (jwt_decode : string -> jwt_error + list (string * pyval))
    (int_of_str : string -> option Z)
    (username password : string) (d : Db) (u : User.t) :
  keys_ok d ->
  In u (users d) ->
  User.email u = username ->
  verify_password password (User.password_hash u) = true ->
  jwt_decode
    (jwt_encode [("sub", PyStr (py_str_int (User.id u)));
                 ("exp", PyInt (utcnow + 60 * minutes))])
  = inr [("sub", PyStr (py_str_int (User.id u)));
         ("exp", PyInt (utcnow + 60 * minutes))] ->
  int_of_str (py_str_int (User.id u)) = Some (User.id u) ->
  exists tok,
    run (login verify_password jwt_encode utcnow minutes username password) d
    = (inr tok, d)
    /\ Token.access_token tok
       = jwt_encode [("sub", PyStr (py_str_int (User.id u)));
                     ("exp", PyInt (utcnow + 60 * minutes))]
    /\ run (get_user_from_token jwt_decode int_of_str
              (Token.access_token tok)) d
       = (inr u, d).
Proof.
  intros (Ku & _ & _ & _ & _ & _ & Ke) Hu Eu Hv Hdec Hint.
  assert (F : find (fun x => String.eqb (User.email x) username) (users d)
              = Some u).
  { destruct (find_exists (fun x => String.eqb (User.email x) username)
                (users d) u Hu) as [y Fy]; [now apply String.eqb_eq|].
    rewrite Fy. apply find_some in Fy. destruct Fy as [Hy Ey].
    apply String.eqb_eq in Ey. f_equal.
    exact (unique_by_email _ y u Ke Hy Hu (eq_trans Ey (eq_sym Eu))). }
  eexists. split; [|split].
  - unfold login. session_unfold. rewrite F, Hv. reflexivity.
  - apply create_access_token_sub.
  - cbn [Token.access_token]. rewrite create_access_token_sub.
    unfold get_user_from_token. rewrite Hdec.
    cbn [dict_get String.eqb Ascii.eqb Bool.eqb py_int]. rewrite Hint.
    session_unfold. rewrite (get_user_unique d u Ku Hu). reflexivity.
Qed.

Lemma login_token_authenticates_witness :
  exists tok,
    run (login sample_verify sample_encode 0 120 "alice@example.com" "h1")
      store_groceries = (inr tok, store_groceries)
    /\ Token.access_token tok = "token-of-1"
    /\ run (get_user_from_token sample_decode_claims sample_int
              (Token.access_token tok)) store_groceries
       = (inr alice, store_groceries).
Proof.
  destruct (login_token_authenticates sample_verify sample_encode 0 120
              sample_decode_claims sample_int "alice@example.com" "h1"
              store_groceries alice) as [tok [H1 [H2 H3]]].
  - solve_store.
  - simpl. tauto.
  - reflexivity.
  - reflexivity.
  - reflexivity.
  - reflexivity.
  - exists tok. split; [exact H1|]. split; [exact H2|exact H3].
Defined.

(** ** Listing Categories *)

Lemma insert_by_name_perm (c : Category.t) (l : list Category.t) :
  Permutation (insert_by_name c l) (c :: l).
Proof.
  induction l as [|y l IH]; simpl; [apply Permutation_refl|].
  destruct (String.leb _ _); [apply Permutation_refl|].
  eapply perm_trans; [apply perm_skip, IH|apply perm_swap].
Qed.

Lemma order_by_name_perm (l : list Category.t) :
  Permutation (order_by_name l) l.
Proof.
  induction l as [|x l IH]; simpl; [constructor|].
  eapply perm_trans; [apply insert_by_name_perm|now apply perm_skip].
Qed.

Lemma insert_by_name_sorted (c : Category.t) (l : list Category.t) :
  Sorted name_asc l -> Sorted name_asc (insert_by_name c l).
Proof.
  induction l as [|y l IH]; simpl; intros S.
  - repeat constructor.
  - destruct (String.leb (Category.name c) (Category.name y)) eqn:E.
    + constructor; [exact S|]. constructor. exact E.
    + assert (Hyc : name_asc y c).
      { unfold name_asc.
        destruct (String.leb_total (Category.name c) (Category.name y))
          as [H|H]; [congruence|exact H]. }
      inversion S as [|? ? S' Hd]; subst.
      constructor; [now apply IH|].
      destruct l as [|z l]; simpl; [constructor; exact Hyc|].
      destruct (String.leb (Category.name c) (Category.name z));
        constructor; [exact Hyc|].
      now inversion Hd.
Qed.

Lemma order_by_name_sorted (l : list Category.t) :
  Sorted name_asc (order_by_name l).
Proof.
  induction l as [|x l IH]; simpl; [constructor|].
  now apply insert_by_name_sorted.
Qed.

(** X11. Listing Categories succeeds and does not write: the result holds
    exactly the principal's Categories, each once (never another
    principal's), in ascending order of name. *)
Theorem list_categories_owned_sorted (P : User.t) (d : Db) :
  exists out,
    run (list_categories P) d = (inr out, d)
    /\ Permutation out
         (filter (fun c => Category.owner_id c =? User.id P) (categories d))
    /\ (forall c, In c out <->
                  In c (categories d) /\ Category.owner_id c = User.id P)
    /\ Sorted name_asc out.
Proof.
  eexists. split; [apply list_categories_run|].
  split; [apply order_by_name_perm|].
  split; [|apply order_by_name_sorted].
  intros c. split.
  - intros H. apply (Permutation_in _ (order_by_name_perm _)) in H.
    apply filter_In in H. rewrite Z.eqb_eq in H. exact H.
  - intros [H E].
    apply (Permutation_in _ (Permutation_sym (order_by_name_perm _))).
    apply filter_In. rewrite Z.eqb_eq. tauto.
Qed.

(** ** Creating and renaming a Category *)

(** X12. A create with a name of 1 to 100 characters succeeds: the new
    Category has an id that no Category had, the name of the request and the
    principal as owner; a lookup of its id returns it, the principal's
    listing holds it, and the existing Categories and the Transactions are
    as before. *)
Theorem created_category_is_listed
    (payload : CategoryIn.t) (P : User.t) (d : Db) :
  CategoryIn.valid payload = true ->
  exists c d' l,
    run (post_categories payload P) d = (inr c, d')
    /\ Category.name c = CategoryIn.name payload
    /\ Category.owner_id c = User.id P
    /\ ~ In (Category.id c) (map Category.id (categories d))
    /\ get_category d' (Category.id c) = Some c
    /\ categories d' = (categories d ++ [c])%list
    /\ transactions d' = transactions d
    /\ run (list_categories P) d' = (inr l, d')
    /\ In c l.
Proof.
  intros V. unfold post_categories, with_CategoryIn. rewrite V.
  eexists. eexists. eexists.
  split; [apply create_category_run|]. simpl.
  split; [reflexivity|]. split; [reflexivity|].
  split; [apply next_rowid_fresh|].
  split; [apply get_category_added|].
  split; [reflexivity|]. split; [reflexivity|].
  split; [apply list_categories_run|].
  apply (Permutation_in _ (Permutation_sym (order_by_name_perm _))).
  apply filter_In. simpl. split; [|apply Z.eqb_refl].
  apply in_app_iff. right. now left.
Qed.

Lemma created_category_is_listed_witness :
  exists c d' l,
    run (post_categories (CategoryIn.mk "Books") alice) store_groceries
    = (inr c, d')
    /\ c = Category.mk 3 "Books" 1
    /\ run (list_categories alice) d' = (inr l, d')
    /\ In c l.
Proof.
  destruct (created_category_is_listed (CategoryIn.mk "Books") alice
              store_groceries eq_refl)
    as [c [d' [l [Hrun [_ [_ [_ [_ [_ [_ [Hl Hin]]]]]]]]]]].
  exists c, d', l. split; [exact Hrun|].
  split; [|split; [exact Hl|exact Hin]].
  vm_compute in Hrun. now injection Hrun as <- _.
Defined.

(** X13. A name of no character or of more than 100 characters does not
    pass the body model: the create and the update answer the 422 and write
    nothing, also when the id of the update is that of no Category.  The
    bound is on characters, not on bytes. *)
Theorem category_name_out_of_bounds
    (payload : CategoryIn.t) (cid : Z) (P : User.t) (d : Db) :
  py_len (CategoryIn.name payload) = 0%nat
  \/ (100 < py_len (CategoryIn.name payload))%nat ->
  run (post_categories payload P) d = (inl RequestValidationError, d)
  /\ run (put_categories cid payload P) d = (inl RequestValidationError, d).
Proof.
  intros H. unfold post_categories, put_categories, with_CategoryIn.
  assert (V : CategoryIn.valid payload = false).
  { unfold CategoryIn.valid. apply andb_false_iff.
    destruct H as [H|H]; [left; apply Z.leb_gt|right; apply Z.leb_gt]; lia. }
  rewrite V. split; reflexivity.
Qed.

(** A name of 34 characters in 102 bytes passes the body model, one of 101
    letters does not. *)
Example category_name_counts_characters :
  CategoryIn.valid (CategoryIn.mk euro_name) = true
  /\ CategoryIn.valid
       (CategoryIn.mk (String.concat "" (repeat "a" 101))) = false.
Proof. split; reflexivity. Qed.

Lemma category_name_out_of_bounds_witness :
  run (post_categories (CategoryIn.mk "") alice) store_groceries
  = (inl RequestValidationError, store_groceries)
  /\ run (put_categories 99 (CategoryIn.mk "") alice) store_groceries
     = (inl RequestValidationError, store_groceries).
Proof.
  apply (category_name_out_of_bounds (CategoryIn.mk "") 99 alice
           store_groceries).
  left. reflexivity.
Defined.

(** X14. In a store where every Category belongs to a User of the store, a
    User who has just registered lists exactly the three default Categories,
    as "Food", "General", "Transport". *)
Theorem registered_user_lists_defaults
    (hash_password : string -> string) (utcnow : Z)
    (user : UserCreate.t) (d d' : Db) (u : User.t) :
  owners_ok d ->
  run (register hash_password utcnow user) d = (inr u, d') ->
  exists l,
    run (list_categories u) d' = (inr l, d')
    /\ map Category.name l = ["Food"; "General"; "Transport"]
    /\ l = (let i := next_rowid (map Category.id (categories d)) in
            [Category.mk (i + 1) "Food" (User.id u);
             Category.mk i "General" (User.id u);
             Category.mk (i + 2) "Transport" (User.id u)]).
Proof.
  intros [Oc _] H. rewrite register_run in H.
  destruct (find _ (users d)) as [x|]; [discriminate|].
  injection H as <- <-.
  eexists. split; [apply list_categories_run|].
  unfold registered. simpl. rewrite filter_app, filter_none.
  - simpl. rewrite !Z.eqb_refl. simpl. split; reflexivity.
  - intros c Hc. apply Z.eqb_neq. intros E.
    apply (next_rowid_fresh (map User.id (users d))).
    rewrite <- E. now apply Oc.
Qed.

Lemma registered_user_lists_defaults_witness :
  exists u d' l,
    run (register (fun pw => pw) 0 (UserCreate.mk "carol@example.com" "pw"))
      store_groceries = (inr u, d')
    /\ run (list_categories u) d' = (inr l, d')
    /\ map Category.name l = ["Food"; "General"; "Transport"].
Proof.
  eexists. eexists.
  destruct (registered_user_lists_defaults (fun pw => pw) 0
              (UserCreate.mk "carol@example.com" "pw") store_groceries
              _ _ ltac:(solve_store) eq_refl) as [l [Hl [Hn _]]].
  exists l. split; [reflexivity|]. split; [exact Hl|exact Hn].
Defined.

(** X15. When the principal owns the Category, the update succeeds and
    renames it in place: id and owner stay, a lookup returns the renamed
    row, the other Categories, the Transactions and the Users are as before,
    and every Transaction that refers to the Category now presents with the
    new name. *)
Theorem renamed_category_shows_in_transactions
    (cid : Z) (payload : CategoryIn.t) (P : User.t) (d : Db)
    (c : Category.t) :
  get_category d cid = Some c ->
  Category.owner_id c = User.id P ->
  exists d',
    run (update_category cid payload P) d
    = (inr (Category.mk cid (CategoryIn.name payload) (User.id P)), d')
    /\ get_category d' cid
       = Some (Category.mk cid (CategoryIn.name payload) (User.id P))
    /\ (forall k, k <> cid -> get_category d' k = get_category d k)
    /\ transactions d' = transactions d
    /\ users d' = users d
    /\ (forall t, Transaction.category_id t = Some cid ->
          TxOut.category_name (tx_out d' t)
          = Some (CategoryIn.name payload))
    /\ (forall t, Transaction.category_id t <> Some cid ->
          tx_out d' t = tx_out d t).
Proof.
  intros G O. destruct (get_category_some _ _ _ G) as [_ Hid].
  rewrite update_category_run, G, O, Z.eqb_refl. simpl. rewrite Hid.
  eexists. split; [reflexivity|].
  assert (G' : get_category
                 (mkDb (users d)
                    (map (fun r =>
                            if Category.id r =? cid
                            then Category.mk cid (CategoryIn.name payload)
                                   (User.id P)
                            else r) (categories d))
                    (transactions d)) cid
               = Some (Category.mk cid (CategoryIn.name payload) (User.id P))).
  { unfold get_category in *. simpl.
    apply (find_replace Category.id cid c); [reflexivity|exact G]. }
  assert (Gk : forall k, k <> cid ->
               get_category
                 (mkDb (users d)
                    (map (fun r =>
                            if Category.id r =? cid
                            then Category.mk cid (CategoryIn.name payload)
                                   (User.id P)
                            else r) (categories d))
                    (transactions d)) k
               = get_category d k).
  { intros k Hk. unfold get_category. simpl.
    now apply find_replace_other. }
  split; [exact G'|]. split; [exact Gk|].
  split; [reflexivity|]. split; [reflexivity|]. split.
  - intros t Ht. unfold tx_out, tx_category. simpl. rewrite Ht, G'.
    reflexivity.
  - intros t Ht. unfold tx_out, tx_category.
    destruct (Transaction.category_id t) as [k|]; [|reflexivity].
    rewrite Gk; [reflexivity|congruence].
Qed.

Lemma renamed_category_shows_in_transactions_witness :
  exists d',
    run (update_category 1 (CategoryIn.mk "Groceries") alice) store_groceries
    = (inr (Category.mk 1 "Groceries" 1), d')
    /\ map TxOut.category_name (map (tx_out d') (transactions d'))
       = [Some "Groceries"; Some "Transport"; Some "Groceries"].
Proof.
  destruct (renamed_category_shows_in_transactions 1
              (CategoryIn.mk "Groceries") alice store_groceries
              (Category.mk 1 "Food" 1) eq_refl eq_refl)
    as [d' [Hrun _]].
  exists d'. split; [exact Hrun|].
  vm_compute in Hrun. injection Hrun as <-. reflexivity.
Defined.

(** X16. After a successful delete, the id is that of no Category and no
    Transaction refers to it.  The id was a stored one, so it is within the
    64-bit range, and then a second delete and an update of it answer 404
    for every principal, and a new Transaction that names it (the id not
    being 0) is refused with 404; each of these leaves the store as the
    delete left it. *)
Theorem deleted_category_is_gone
    (cid : Z) (P : User.t) (d d' : Db) :
  run (delete_category cid P) d = (inr tt, d') ->
  (in_int64 cid = true ->
   forall Q payload,
     run (update_category cid payload Q) d' = (inl not_found, d')
     /\ run (delete_category cid Q) d' = (inl not_found, d'))
  /\ get_category d' cid = None
  /\ (forall t, In t (transactions d') ->
                Transaction.category_id t <> Some cid)
  /\ (in_int64 cid = true ->
      forall Q body,
        cid <> 0 -> TxIn.category_id body = Some cid ->
        run (create_transaction body Q) d' = (inl not_found, d')).
Proof.
  rewrite delete_category_run.
  destruct (get_category d cid) as [c|] eqn:G; [|discriminate].
  destruct (negb _); [discriminate|].
  intros H. injection H as <-.
  destruct (get_category_some _ _ _ G) as [_ Hid]. rewrite Hid.
  set (d' := mkDb _ _ _).
  assert (N : get_category d' cid = None)
    by (unfold get_category; simpl; apply get_category_filter_out).
  split; [|split; [exact N|split]].
  - intros R Q payload.
    rewrite update_category_run, delete_category_run, N.
    unfold missing. rewrite R. split; reflexivity.
  - intros t Ht. simpl in Ht. apply in_map_iff in Ht.
    destruct Ht as [t0 [<- _]]. unfold detach.
    destruct (Transaction.category_id t0) as [k|] eqn:Ek;
      [|rewrite Ek; discriminate].
    destruct (k =? cid) eqn:E; simpl; [discriminate|].
    rewrite Ek. apply Z.eqb_neq in E. congruence.
  - intros R Q body Hz Hb. rewrite create_transaction_run, Hb.
    rewrite check_category_refuses; [reflexivity|exact Hz|exact R|].
    intros [x [Gx _]]. simpl in Gx. rewrite N in Gx. discriminate.
Qed.

Lemma deleted_category_is_gone_witness :
  exists d',
    run (delete_category 1 alice) store_groceries = (inr tt, d')
    /\ run (delete_category 1 alice) d' = (inl not_found, d')
    /\ run (create_transaction bakery_again alice) d' = (inl not_found, d').
Proof.
  eexists. split; [reflexivity|].
  pose proof (deleted_category_is_gone 1 alice store_groceries _ eq_refl)
    as [H1 [_ [_ H3]]].
  split.
  - exact (proj2 (H1 eq_refl alice (CategoryIn.mk "x"))).
  - apply H3; [reflexivity|lia|reflexivity].
Defined.

(** ** Overwriting a Transaction *)

Lemma check_category_same_categories (cat : option Z) (P : User.t)
    (s s' : Session) :
  categories (pending s) = categories (pending s') ->
  fst (check_category cat P s) = fst (check_category cat P s').
Proof.
  intros E. unfold check_category. destruct cat as [cid|]; [|reflexivity].
  destruct (cid =? 0); [reflexivity|]. session_unfold.
  unfold get_category. rewrite E.
  destruct (find _ (categories (pending s'))) as [c|];
    [|destruct (in_int64 cid); reflexivity].
  simpl. destruct (negb _); reflexivity.
Qed.

Lemma map_replace_twice {A} (key : A -> Z) (i : Z) (r' : A) (l : list A) :
  key r' = i ->
  map (fun x => if key x =? i then r' else x)
    (map (fun x => if key x =? i then r' else x) l)
  = map (fun x => if key x =? i then r' else x) l.
Proof.
  intros Hk. rewrite map_map. apply map_ext. intros x.
  destruct (key x =? i) eqn:E; [|now rewrite E].
  now rewrite Hk, Z.eqb_refl.
Qed.

(** X17. A successful update replaces the whole row: afterwards a lookup of
    the id returns a row with every field of the request (a category left
    out becomes NULL) and the id and owner it had; the rows of other ids,
    the Categories and the Users are as before and no row is added.  The
    same update sent again succeeds with the same answer and changes
    nothing. *)
Theorem update_transaction_replaces_the_row
    (tx_id : Z) (payload : TxIn.t) (P : User.t) (d d' : Db) (out : TxOut.t) :
  run (update_transaction tx_id payload P) d = (inr out, d') ->
  (exists tx,
      get_transaction d tx_id = Some tx
      /\ get_transaction d' tx_id
         = Some (Transaction.mk tx_id (TxIn.date payload)
                   (TxIn.description payload) (TxIn.amount payload)
                   (TxIn.type payload) (TxIn.category_id payload)
                   (User.id P))
      /\ Transaction.owner_id tx = User.id P)
  /\ (forall k, k <> tx_id -> get_transaction d' k = get_transaction d k)
  /\ map Transaction.id (transactions d') = map Transaction.id (transactions d)
  /\ categories d' = categories d
  /\ users d' = users d
  /\ run (update_transaction tx_id payload P) d' = (inr out, d').
Proof.
  intros H. pose proof H as H0. apply update_transaction_inr in H.
  destruct H as [tx [G [O [Hd [Ho [G' C]]]]]].
  destruct (get_transaction_some _ _ _ G) as [_ Hid].
  assert (Et : overwritten tx payload
               = Transaction.mk tx_id (TxIn.date payload)
                   (TxIn.description payload) (TxIn.amount payload)
                   (TxIn.type payload) (TxIn.category_id payload) (User.id P))
    by (unfold overwritten; now rewrite Hid, O).
  split; [exists tx; rewrite <- Et; auto|].
  split.
  { intros k Hk. subst d'. unfold get_transaction. simpl.
    apply find_replace_other; [unfold overwritten; simpl; exact Hid|exact Hk]. }
  split.
  { subst d'. simpl. apply map_key_replace. exact Hid. }
  split; [subst d'; reflexivity|]. split; [subst d'; reflexivity|].
  rewrite update_transaction_run, G'. simpl. rewrite O, Z.eqb_refl. simpl.
  assert (Ec : fst (check_category (TxIn.category_id payload) P
                      (mkSession d' d'))
               = fst (check_category (TxIn.category_id payload) P
                        (mkSession d d)))
    by (apply check_category_same_categories; subst d'; reflexivity).
  destruct (check_category_cases (TxIn.category_id payload) P
              (mkSession d d)) as [E|[e0 [E _]]].
  2:{ exfalso. rewrite update_transaction_run, G in H0.
      rewrite O, Z.eqb_refl in H0. simpl in H0. rewrite E in H0.
      discriminate H0. }
  destruct (check_category_cases (TxIn.category_id payload) P
              (mkSession d' d')) as [E'|[e1 [E' _]]];
    rewrite E', E in Ec; simpl in Ec; [|discriminate Ec].
  rewrite E'.
  assert (Eo : overwritten (overwritten tx payload) payload
               = overwritten tx payload) by reflexivity.
  rewrite Eo.
  assert (Ed : with_transactions d'
                 (map (fun r =>
                         if Transaction.id r =? tx_id
                         then overwritten tx payload else r)
                    (transactions d')) = d').
  { rewrite Hd at 2. subst d'. unfold with_transactions. simpl.
    rewrite map_replace_twice; [reflexivity|exact Hid]. }
  cbv zeta. rewrite Ed. now rewrite <- Ho.
Qed.

Lemma update_transaction_replaces_the_row_witness :
  exists out d',
    run (update_transaction 1 groceries_bill alice) store_groceries
    = (inr out, d')
    /\ get_transaction d' 1
       = Some (Transaction.mk 1 (Date.mk 2024 1 31) "Groceries"
                 (Finite (40 # 1)) "expense" None 1)
    /\ run (update_transaction 1 groceries_bill alice) d' = (inr out, d').
Proof.
  eexists. eexists. split; [reflexivity|].
  pose proof (update_transaction_replaces_the_row 1 groceries_bill alice
                store_groceries _ _ eq_refl) as [[tx [_ [G _]]] [_ [_ [_ [_ R]]]]].
  split; [exact G|exact R].
Defined.

(** ** Listing Transactions, whatever the filters *)

Lemma limit_offset_length {A} (limit offset : Z) (l : list A) :
  0 <= limit ->
  (List.length (limit_offset limit offset l) <= Z.to_nat limit)%nat.
Proof.
  intros H. unfold limit_offset.
  replace (limit <? 0) with false by (symmetry; apply Z.ltb_ge; lia).
  apply firstn_le_length.
Qed.

(** X18. A listing never writes, whatever its filters and page.  Every item
    is built from a Transaction of the principal, never from another
    principal's; the items are in descending order of date; and with a
    limit that is not negative there are at most that many. *)
Theorem listing_shows_only_own_rows
    (P : User.t) (q ty : option string) (cat : option Z)
    (st en : option Date.t) (limit offset : Z) (d : Db) :
  exists out,
    run (list_transactions P q ty cat st en limit offset) d = (inr out, d)
    /\ (forall o, In o out ->
          exists t,
            In t (transactions d)
            /\ Transaction.owner_id t = User.id P
            /\ o = tx_out d t)
    /\ StronglySorted out_date_desc out
    /\ (0 <= limit -> Z.of_nat (List.length out) <= limit).
Proof.
  eexists. split; [apply list_transactions_run|].
  split; [|split; [apply listing_sorted|]].
  - intros o Ho. apply listing_items in Ho. destruct Ho as [t [-> [Hin Hs]]].
    exists t. split; [exact Hin|]. split; [|reflexivity].
    apply list_stmt_owned in Hs. now apply Z.eqb_eq.
  - intros Hl. rewrite length_map.
    pose proof (limit_offset_length limit offset
                  (order_by_date_desc
                     (filter (list_stmt P q ty cat st en) (transactions d)))
                  Hl).
    lia.
Qed.





Lemma listing_shows_only_own_rows_witness :
  exists out,
    run (list_transactions bob None None None None None 1 0) store_shared
    = (inr out, store_shared)
    /\ map TxOut.description out = ["March rent"]
    /\ Z.of_nat (List.length out) <= 1.
Proof.
  destruct (listing_shows_only_own_rows bob None None None None None 1 0
              store_shared) as [out [Hrun [_ [_ Hlen]]]].
  exists out. split; [exact Hrun|]. split; [|apply Hlen; lia].
  vm_compute in Hrun. injection Hrun as <-. reflexivity.
Defined.

(** ** The free-text filter *)

Lemma some_tail_end (m : string -> bool) (mid : bool) (s : string) :
  m EmptyString = true -> some_tail m mid s = true.
Proof.
  intros H. revert mid. induction s as [|c s IH]; intros mid; simpl;
    [exact H|].
  destruct (mid && utf8_continuation c); [apply IH|].
  rewrite IH. apply orb_true_r.
Qed.

(** When [m] accepts only texts that begin with the first byte of a
    character, every tail that it accepts begins a character. *)
Lemma some_tail_iff (m : string -> bool) (mid : bool) (s : string) :
  (forall b, m b = true ->
     exists x b', b = String x b' /\ utf8_continuation x = false) ->
  some_tail m mid s = true <->
  exists a b, s = String.append a b /\ m b = true.
Proof.
  intros Hm. revert mid. induction s as [|c s IH]; intros mid; simpl.
  - split.
    + intros H. exists EmptyString, EmptyString. auto.
    + intros [a [b [E H]]]. destruct a; [|discriminate E].
      simpl in E. now subst b.
  - destruct (mid && utf8_continuation c) eqn:Ec.
    + rewrite IH. split.
      * intros [a [b [-> H]]]. exists (String c a), b. auto.
      * intros [a [b [E H]]]. destruct a as [|x a].
        -- simpl in E. subst b. destruct (Hm _ H) as [x [b' [Eb Hx]]].
           injection Eb as <- _. apply andb_true_iff in Ec.
           destruct Ec as [_ Ec]. congruence.
        -- injection E as <- ->. now exists a, b.
    + rewrite orb_true_iff, IH. split.
      * intros [H|[a [b [-> H]]]].
        -- exists EmptyString, (String c s). auto.
        -- exists (String c a), b. auto.
      * intros [a [b [E H]]]. destruct a as [|x a].
        -- simpl in E. subst b. now left.
        -- injection E as <- ->. right. now exists a, b.
Qed.

Lemma like_chars_plain_char (c : ascii) (p s : string) :
  Ascii.eqb c "%"%char = false -> Ascii.eqb c "_"%char = false ->
  like_chars (String c p) s
  = match s with
    | EmptyString => false
    | String x s' => Ascii.eqb c x && like_chars p s'
    end.
Proof. intros H1 H2. simpl. rewrite H1, H2. destruct s; reflexivity. Qed.

Lemma plain_cons (c : ascii) (q : string) :
  plain (String c q) = true ->
  Ascii.eqb c "%"%char = false /\ Ascii.eqb c "_"%char = false
  /\ Ascii.eqb c "000"%char = false /\ plain q = true.
Proof.
  simpl. rewrite !andb_true_iff, !negb_true_iff. tauto.
Qed.

Lemma like_chars_plain_prefix (q p s : string) :
  plain q = true ->
  like_chars (String.append q p) s = true <->
  exists s', s = String.append q s' /\ like_chars p s' = true.
Proof.
  revert s. induction q as [|c q IH]; intros s Hq.
  - change (String.append "" p) with p.
    split; [intros H; now exists s|intros [s' [-> H]]; exact H].
  - change (String.append (String c q) p)
      with (String c (String.append q p)).
    apply plain_cons in Hq. destruct Hq as [H1 [H2 [_ Hq]]].
    rewrite like_chars_plain_char by assumption.
    destruct s as [|x s].
    + split; [discriminate|]. intros [s' [E _]]. discriminate E.
    + rewrite andb_true_iff, Ascii.eqb_eq, (IH s Hq). split.
      * intros [-> [s' [-> H]]]. now exists s'.
      * intros [s' [E H]]. injection E as -> ->. split; [reflexivity|].
        now exists s'.
Qed.

Lemma like_chars_anything (s : string) : like_chars "%" s = true.
Proof. simpl. now apply some_tail_end. Qed.

Lemma append_assoc (a b c : string) :
  String.append (String.append a b) c = String.append a (String.append b c).
Proof. induction a as [|x a IH]; simpl; congruence. Qed.

(** A pattern [%q%] without wildcards in [q] matches the C strings that
    contain [q]. *)
Lemma like_chars_contains (c : ascii) (q s : string) :
  plain (String c q) = true -> utf8_continuation c = false ->
  like_chars (String "%" (String.append (String c q) "%")) s = true <->
  contains (String c q) s.
Proof.
  intros Hq Hc. unfold contains.
  change (like_chars (String "%" (String.append (String c q) "%")) s)
    with (some_tail (like_chars (String.append (String c q) "%")) false s).
  rewrite some_tail_iff.
  - split.
    + intros [a [b0 [-> H]]].
      apply (like_chars_plain_prefix (String c q) "%" b0 Hq) in H.
      destruct H as [b [-> _]]. now exists a, b.
    + intros [a [b ->]]. exists a, (String.append (String c q) b).
      split; [reflexivity|].
      apply (like_chars_plain_prefix (String c q) "%" _ Hq). exists b.
      split; [reflexivity|apply like_chars_anything].
  - intros b H.
    apply (like_chars_plain_prefix (String c q) "%" b Hq) in H.
    destruct H as [b' [-> _]]. exists c, (String.append q b'). auto.
Qed.

Lemma c_str_plain (q p : string) :
  plain q = true -> c_str (String.append q p) = String.append q (c_str p).
Proof.
  induction q as [|c q IH]; intros Hq; [reflexivity|].
  apply plain_cons in Hq. destruct Hq as [_ [_ [H0 Hq]]].
  simpl. rewrite H0. now rewrite IH.
Qed.

Lemma like_contains (c : ascii) (q s : string) :
  plain (String c q) = true -> utf8_continuation c = false ->
  like (String "%" (String.append (String c q) "%")) s = true <->
  contains (String c q) (c_str s).
Proof.
  intros Hq Hc. unfold like.
  change (c_str (String "%" (String.append (String c q) "%")))
    with (String "%" (c_str (String.append (String c q) "%"))).
  rewrite (c_str_plain _ "%" Hq).
  change (c_str "%") with "%".
  now apply like_chars_contains.
Qed.

Lemma lower_append (a b : string) :
  lower (String.append a b) = String.append (lower a) (lower b).
Proof. induction a as [|c a IH]; simpl; congruence. Qed.

Lemma lower_ascii_special (c : ascii) :
  Ascii.eqb (lower_ascii c) "%"%char = Ascii.eqb c "%"%char
  /\ Ascii.eqb (lower_ascii c) "_"%char = Ascii.eqb c "_"%char
  /\ Ascii.eqb (lower_ascii c) "000"%char = Ascii.eqb c "000"%char
  /\ utf8_continuation (lower_ascii c) = utf8_continuation c.
Proof.
  destruct c as [[] [] [] [] [] [] [] []]; repeat split; reflexivity.
Qed.

Lemma plain_lower (q : string) : plain (lower q) = plain q.
Proof.
  induction q as [|c q IH]; simpl; [reflexivity|].
  destruct (lower_ascii_special c) as [-> [-> [-> _]]]. now rewrite IH.
Qed.

Lemma c_str_lower (s : string) : c_str (lower s) = lower (c_str s).
Proof.
  induction s as [|c s IH]; simpl; [reflexivity|].
  destruct (lower_ascii_special c) as [_ [_ [-> _]]].
  destruct (Ascii.eqb c "000"%char); [reflexivity|]. simpl. now rewrite IH.
Qed.

(** [ilike] with a pattern [%q%] without wildcards in [q]: [q] occurs in
    the text up to its first NUL, letters compared in lower case. *)
Lemma ilike_contains (c : ascii) (q s : string) :
  plain (String c q) = true -> utf8_continuation c = false ->
  ilike s (String "%" (String.append (String c q) "%")) = true <->
  contains (lower (String c q)) (lower (c_str s)).
Proof.
  intros Hq Hc. unfold ilike.
  change (lower (String "%" (String.append (String c q) "%")))
    with (String "%" (lower (String.append (String c q) "%"))).
  rewrite lower_append.
  change (lower "%") with "%".
  change (lower (String c q)) with (String (lower_ascii c) (lower q)).
  rewrite <- c_str_lower.
  apply like_contains.
  - change (String (lower_ascii c) (lower q)) with (lower (String c q)).
    now rewrite plain_lower.
  - destruct (lower_ascii_special c) as [_ [_ [_ ->]]]. exact Hc.
Qed.

(** [LIKE] reads pattern and text up to their first NUL, and [_] stands for
    one character whatever its number of bytes. *)
Example like_reads_c_strings :
  like (with_nul "%a" "b%") "Pizza" = true
  /\ ilike (with_nul "x" "needle") "%needle%" = false
  /\ like "%__x" (String.append euro "x") = false
  /\ like "%_x" (String.append euro "x") = true.
Proof. repeat split; reflexivity. Qed.

Lemma list_stmt_text (P : User.t) (c : ascii) (rest : string)
    (ty : option string) (cat : option Z) (st en : option Date.t)
    (t : Transaction.t) :
  list_stmt P (Some (String c rest)) ty cat st en t = true ->
  ilike (Transaction.description t)
    (String "%" (String.append (String c rest) "%")) = true.
Proof.
  unfold list_stmt.
  destruct ty as [k|];
    try destruct (String.eqb k "expense" || String.eqb k "income");
    destruct cat as [cid|]; try destruct (cid =? 0);
    destruct st as [s|]; destruct en as [e|];
    rewrite ?where_true; tauto.
Qed.

(** X20. With a text [q] that is not empty and holds no [%], no [_] and no
    NUL, the listing keeps the Transactions whose description, read up to
    its first NUL, contains [q], letters compared without regard to ASCII
    case: every item's description contains it so, and when [q] is the only
    filter and the page covers the matches, every Transaction of the
    principal whose description contains it so is listed. *)
Theorem text_filter_is_substring_match
    (P : User.t) (c : ascii) (rest : string) (ty : option string)
    (cat : option Z) (st en : option Date.t) (limit offset : Z) (d : Db) :
  plain (String c rest) = true ->
  utf8_continuation c = false ->
  servable (Some (String c rest)) cat limit offset = true ->
  exists out,
    run (list_transactions P (Some (String c rest)) ty cat st en limit offset)
      d = (inr out, d)
    /\ (forall o, In o out ->
          contains (lower (String c rest))
            (lower (c_str (TxOut.description o))))
    /\ (ty = None -> cat = None -> st = None -> en = None ->
        covers limit offset
          (List.length
             (filter (list_stmt P (Some (String c rest)) None None None None)
                (transactions d))) ->
        forall t,
          In t (transactions d) ->
          Transaction.owner_id t = User.id P ->
          contains (lower (String c rest))
            (lower (c_str (Transaction.description t))) ->
          In (tx_out d t) out).
Proof.
  intros Hq Hc _. eexists. split; [apply list_transactions_run|]. split.
  - intros o Ho. apply listing_items in Ho. destruct Ho as [t [-> [_ Hs]]].
    apply list_stmt_text in Hs. apply (ilike_contains _ _ _ Hq Hc) in Hs.
    exact Hs.
  - intros -> -> -> -> [Ho Hl] t Hin Hown Hsub.
    apply in_map. rewrite limit_offset_all;
      [|exact Ho
       |rewrite (Permutation_length (order_by_date_desc_perm _)); exact Hl].
    apply (Permutation_in _ (Permutation_sym (order_by_date_desc_perm _))).
    apply filter_In. split; [exact Hin|].
    unfold list_stmt. apply where_true. split; [now apply Z.eqb_eq|].
    now apply (ilike_contains _ _ _ Hq Hc).
Qed.

Lemma text_filter_is_substring_match_witness :
  exists out,
    run (list_transactions alice (Some "BAK") None None None None 50 0)
      store_groceries = (inr out, store_groceries)
    /\ map TxOut.description out = ["Bakery"]
    /\ In (tx_out store_groceries
             (Transaction.mk 3 (Date.mk 2024 1 20) "Bakery" (Finite (5 # 2))
                "expense" (Some 1) 1)) out.
Proof.
  destruct (text_filter_is_substring_match alice "B" "AK" None None None None
              50 0 store_groceries eq_refl eq_refl eq_refl)
    as [out [Hrun [_ Hall]]].
  exists out. split; [exact Hrun|]. split.
  - vm_compute in Hrun. injection Hrun as <-. reflexivity.
  - apply (Hall eq_refl eq_refl eq_refl eq_refl).
    + split; simpl; lia.
    + simpl. tauto.
    + reflexivity.
    + exists "", "ery". reflexivity.
Defined.

(** ** The subject of a token *)

Lemma dict_get_missing (payload : list (string * pyval)) (key : string) :
  (forall v, ~ In (key, v) payload) -> dict_get payload key = PyNone.
Proof.
  induction payload as [|[k v] rest IH]; simpl; intros H; [reflexivity|].
  destruct (String.eqb k key) eqn:E.
  - apply String.eqb_eq in E. subst k. exfalso. apply (H v). now left.
  - apply IH. intros w Hw. apply (H w). now right.
Qed.

(** X21. A token that decodes but carries no "sub" claim is answered with
    the 401 "Invalid token".  A token whose subject reads as the integer
    [uid] resolves to a User of the store whose id is [uid], when there is
    one; in both cases the store is not written. *)
Theorem token_subject_resolution
    (jwt_decode : string -> jwt_error + list (string * pyval))
    (int_of_str : string -> option Z) (token : string) (d : Db)
    (payload : list (string * pyval)) :
  jwt_decode token = inr payload ->
  ((forall v, ~ In ("sub", v) payload) ->
   run (get_user_from_token jwt_decode int_of_str token) d
   = (inl (HTTPException 401 "Invalid token"), d))
  /\ (forall uid u,
        py_int int_of_str (dict_get payload "sub") = Some uid ->
        get_user d uid = Some u ->
        run (get_user_from_token jwt_decode int_of_str token) d = (inr u, d)
        /\ User.id u = uid /\ In u (users d)).
Proof.
  intros Hd. unfold get_user_from_token. rewrite Hd. split.
  - intros Hno. now rewrite (dict_get_missing payload "sub" Hno).
  - intros uid u -> G. session_unfold. rewrite G.
    split; [reflexivity|]. unfold get_user in G. apply find_some in G.
    destruct G as [Hin E]. apply Z.eqb_eq in E. tauto.
Qed.

Lemma token_subject_resolution_witness :
  run (get_user_from_token sample_decode_claims sample_int "token-of-1")
    store_groceries = (inr alice, store_groceries)
  /\ User.id alice = 1 /\ In alice (users store_groceries).
Proof.
  apply (proj2 (token_subject_resolution sample_decode_claims sample_int
                  "token-of-1" store_groceries
                  [("sub", PyStr "1"); ("exp", PyInt 7200)] eq_refl) 1 alice);
    reflexivity.
Defined.

(** ** The claims of an issued token *)

Lemma dict_get_update_same (data : list (string * pyval)) (key : string)
    (v : pyval) :
  dict_get (dict_update data key v) key = v.
Proof.
  induction data as [|[k w] rest IH]; simpl.
  - now rewrite String.eqb_refl.
  - destruct (String.eqb k key) eqn:E; simpl; now rewrite E.
Qed.

Lemma dict_get_update_other (data : list (string * pyval)) (key k' : string)
    (v : pyval) :
  k' <> key ->
  dict_get (dict_update data key v) k' = dict_get data k'.
Proof.
  intros Hne. induction data as [|[k w] rest IH]; simpl.
  - apply String.eqb_neq in Hne. rewrite String.eqb_sym in Hne.
    now rewrite Hne.
  - destruct (String.eqb k key) eqn:E; simpl.
    + apply String.eqb_eq in E. subst k.
      apply String.eqb_neq in Hne. rewrite String.eqb_sym in Hne.
      now rewrite Hne.
    + now rewrite IH.
Qed.

Lemma dict_update_length (data : list (string * pyval)) (key : string)
    (v : pyval) :
  (List.length data <= List.length (dict_update data key v)
   <= S (List.length data))%nat.
Proof.
  induction data as [|[k w] rest IH]; simpl; [lia|].
  destruct (String.eqb k key); simpl; lia.
Qed.

(** X22. The claims that a token is issued with are the data given, with
    the expiry set to the time of issue plus the lifetime: an "exp" that the
    data already held is replaced, every other claim is kept. *)
Theorem issued_claims_carry_the_expiry
    (jwt_encode : list (string * pyval) -> string) (utcnow minutes : Z)
    (data : list (string * pyval)) :
  exists claims,
    create_access_token jwt_encode utcnow data minutes = jwt_encode claims
    /\ dict_get claims "exp" = PyInt (utcnow + 60 * minutes)
    /\ (forall key, key <> "exp" -> dict_get claims key = dict_get data key)
    /\ (List.length data <= List.length claims <= S (List.length data))%nat.
Proof.
  exists (dict_update data "exp" (PyInt (utcnow + 60 * minutes))).
  split; [reflexivity|].
  split; [apply dict_get_update_same|].
  split; [intros key Hk; now apply dict_get_update_other|].
  apply dict_update_length.
Qed.

(** ** Creating a Transaction *)

(** X23. A create without a Category, or with a Category of the principal,
    succeeds: one row is added after the others, with an id that no
    Transaction had, the fields of the request and the principal as owner;
    the Categories and the Users are as before. *)
Theorem create_transaction_succeeds
    (payload : TxIn.t) (P : User.t) (d : Db) :
  match TxIn.category_id payload with
  | None => True
  | Some cid => category_owned d cid (User.id P)
  end ->
  exists out d' t,
    run (create_transaction payload P) d = (inr out, d')
    /\ transactions d' = (transactions d ++ [t])%list
    /\ t = Transaction.mk (TxOut.id out) (TxIn.date payload)
             (TxIn.description payload) (TxIn.amount payload)
             (TxIn.type payload) (TxIn.category_id payload) (User.id P)
    /\ ~ In (TxOut.id out) (map Transaction.id (transactions d))
    /\ categories d' = categories d
    /\ users d' = users d.
Proof.
  intros H. rewrite create_transaction_run.
  assert (E : check_category (TxIn.category_id payload) P (mkSession d d)
              = (inr tt, mkSession d d)).
  { unfold check_category.
    destruct (TxIn.category_id payload) as [cid|]; [|reflexivity].
    destruct (cid =? 0); [reflexivity|]. session_unfold.
    destruct H as [c [-> O]]. rewrite O, Z.eqb_refl. reflexivity. }
  rewrite E. eexists. eexists. eexists.
  split; [reflexivity|]. simpl.
  split; [reflexivity|]. split; [reflexivity|].
  split; [apply next_rowid_fresh|]. split; reflexivity.
Qed.

Lemma create_transaction_succeeds_witness :
  exists out d' t,
    run (create_transaction bakery_again alice) store_groceries
    = (inr out, d')
    /\ transactions d' = (transactions store_groceries ++ [t])%list
    /\ TxOut.id out = 4.
Proof.
  destruct (create_transaction_succeeds bakery_again alice store_groceries)
    as [out [d' [t [Hrun [Ht _]]]]].
  - exists (Category.mk 1 "Food" 1). split; reflexivity.
  - exists out, d', t. split; [exact Hrun|]. split; [exact Ht|].
    vm_compute in Hrun. injection Hrun as <- _. reflexivity.
Defined.
